(** * TradeXAI: indicator pipeline, signal generation and bar-by-bar backtest

    A shallow embedding of [src/utils.py], [src/strategy.py] and
    [src/backtest.py].

    Numbers.  Python floats are modelled as extended rationals: a finite
    value is a rational kept in lowest terms, and the three special values
    [nan], [pinf] and [ninf] behave as in IEEE 754.  Rounding and overflow
    are not modelled, and zero carries no sign: a non-zero finite value
    divided by zero is the infinity of the dividend's sign.

    Time.  A timestamp of the index is a number of seconds since the epoch
    (the index is taken timezone-naive, which the code reads as UTC). *)

From Stdlib Require Import QArith Qabs ZArith List Bool String Lia Lqa Sorted.
Import ListNotations.

(* ================================================================== *)
(** ** Floats *)

Module Float.

Inductive float : Type :=
| nan
| pinf
| ninf
| fin (q : Q).

Definition num (q : Q) : float := fin (Qred q).
Definition of_Z (z : Z) : float := fin (inject_Z z).

Definition is_nan (x : float) : bool :=
  match x with nan => true | _ => false end.

Definition is_fin (x : float) : bool :=
  match x with fin _ => true | _ => false end.

Definition neg (x : float) : float :=
  match x with
  | nan => nan
  | pinf => ninf
  | ninf => pinf
  | fin a => fin (Qred (- a))
  end.

Definition add (x y : float) : float :=
  match x, y with
  | nan, _ | _, nan => nan
  | pinf, ninf | ninf, pinf => nan
  | pinf, _ | _, pinf => pinf
  | ninf, _ | _, ninf => ninf
  | fin a, fin b => fin (Qred (a + b))
  end.

Definition sub (x y : float) : float := add x (neg y).

(** The infinity of the sign of [c], or [z] when [c] is [Eq]. *)
Definition signed (c : comparison) (z : float) : float :=
  match c with Gt => pinf | Lt => ninf | Eq => z end.

Definition mul (x y : float) : float :=
  match x, y with
  | nan, _ | _, nan => nan
  | pinf, pinf | ninf, ninf => pinf
  | pinf, ninf | ninf, pinf => ninf
  | pinf, fin b | fin b, pinf => signed (b ?= 0)%Q nan
  | ninf, fin b | fin b, ninf => signed (0 ?= b)%Q nan
  | fin a, fin b => fin (Qred (a * b))
  end.

Definition div (x y : float) : float :=
  match x, y with
  | nan, _ | _, nan => nan
  | (pinf | ninf), (pinf | ninf) => nan
  | pinf, fin b => match (b ?= 0)%Q with Lt => ninf | _ => pinf end
  | ninf, fin b => match (b ?= 0)%Q with Lt => pinf | _ => ninf end
  | fin _, (pinf | ninf) => fin 0
  | fin a, fin b =>
      match (b ?= 0)%Q with
      | Eq => signed (a ?= 0)%Q nan
      | _ => fin (Qred (a / b))
      end
  end.

Definition abs (x : float) : float :=
  match x with
  | nan => nan
  | pinf | ninf => pinf
  | fin a => fin (Qred (Qabs a))
  end.

(** Every comparison that involves [nan] is false. *)
Definition cmp (x y : float) : option comparison :=
  match x, y with
  | nan, _ | _, nan => None
  | pinf, pinf | ninf, ninf => Some Eq
  | pinf, _ | _, ninf => Some Gt
  | ninf, _ | _, pinf => Some Lt
  | fin a, fin b => Some (a ?= b)%Q
  end.

Definition lt (x y : float) : bool :=
  match cmp x y with Some Lt => true | _ => false end.
Definition gt (x y : float) : bool :=
  match cmp x y with Some Gt => true | _ => false end.
Definition le (x y : float) : bool :=
  match cmp x y with Some Lt | Some Eq => true | _ => false end.
Definition ge (x y : float) : bool :=
  match cmp x y with Some Gt | Some Eq => true | _ => false end.
Definition eqb (x y : float) : bool :=
  match cmp x y with Some Eq => true | _ => false end.
(** Python's [!=]: true whenever [==] is false, so [nan != nan]. *)
Definition neb (x y : float) : bool := negb (eqb x y).

Declare Scope float_scope.
Delimit Scope float_scope with float.
Bind Scope float_scope with float.
Notation "x + y" := (add x y) : float_scope.
Notation "x - y" := (sub x y) : float_scope.
Notation "x * y" := (mul x y) : float_scope.
Notation "x / y" := (div x y) : float_scope.
Notation "- x" := (neg x) : float_scope.
Notation "x <? y" := (lt x y) : float_scope.
Notation "x >? y" := (gt x y) : float_scope.
Notation "x <=? y" := (le x y) : float_scope.
Notation "x >=? y" := (ge x y) : float_scope.

End Float.
Import Float.
Local Open Scope float_scope.

(* ================================================================== *)
(** ** The pandas operations the code calls

    A column ([pd.Series]) is a list of floats in index order. *)

Module Series.

Definition Series : Type := list float.

Fixpoint map2 {A B C} (f : A -> B -> C) (xs : list A) (ys : list B)
  : list C :=
  match xs, ys with
  | x :: xs', y :: ys' => f x y :: map2 f xs' ys'
  | _, _ => []
  end.

(** [s.shift(1)] *)
Definition shift1 (s : Series) : Series :=
  match s with
  | [] => []
  | _ :: _ => nan :: removelast s
  end.

(** [s.cumsum()]: a [nan] entry stays [nan] and is left out of the
    running sum. *)
Fixpoint cumsum_from (acc : float) (s : Series) : Series :=
  match s with
  | [] => []
  | x :: r =>
      if is_nan x then nan :: cumsum_from acc r
      else (acc + x) :: cumsum_from (acc + x) r
  end.

Definition cumsum (s : Series) : Series := cumsum_from (fin 0) s.

(** [s.fillna(method='ffill')] and [s.ffill()] *)
Fixpoint ffill_from (last_valid : float) (s : Series) : Series :=
  match s with
  | [] => []
  | x :: r =>
      if is_nan x then last_valid :: ffill_from last_valid r
      else x :: ffill_from x r
  end.

Definition ffill (s : Series) : Series := ffill_from nan s.

Definition dropna (s : Series) : Series :=
  filter (fun x => negb (is_nan x)) s.

(** [s.sum()] (skipna) *)
Definition sum (s : Series) : float := fold_left add (dropna s) (fin 0).

(** mean of the observed values, [nan] when there is none
    ([min_periods=1]) *)
Definition mean (s : Series) : float :=
  match dropna s with
  | [] => nan
  | obs => sum s / of_Z (Z.of_nat (List.length obs))
  end.

(** The last [n] entries up to and including position [i]. *)
Definition window (n i : nat) (s : Series) : Series :=
  skipn (S i - n) (firstn (S i) s).

(** What pandas' window operations do to their input first: an infinite
    value becomes [nan]. *)
Definition prep_values (s : Series) : Series :=
  map (fun x => match x with pinf | ninf => nan | _ => x end) s.

(** [s.rolling(n, min_periods=1).mean()], window by window *)
Definition rolling_mean (n : positive) (s : Series) : Series :=
  let values := prep_values s in
  map (fun i => mean (window (Pos.to_nat n) i values))
      (seq 0 (List.length values)).

(** [max(axis=1)] over two cells (skipna) *)
Definition max2 (x y : float) : float :=
  if is_nan x then y
  else if is_nan y then x
  else if x >=? y then x else y.

(** [s.ewm(alpha=..., adjust=False).mean()]: the loop of pandas' [ewm]
    with [adjust=False], [ignore_na=False] and no minimum number of
    observations.  [weighted] is the running average and [old_wt] the
    weight it carries. *)
Fixpoint ewm_from (alpha weighted old_wt : float) (s : Series) : Series :=
  match s with
  | [] => []
  | cur :: r =>
      let is_observation := negb (is_nan cur) in
      let '(weighted', old_wt') :=
        if negb (is_nan weighted) then
          let old_wt1 := old_wt * (fin 1 - alpha) in
          if is_observation then
            ((if neb weighted cur
              then (old_wt1 * weighted + alpha * cur) / (old_wt1 + alpha)
              else weighted),
             fin 1)
          else (weighted, old_wt1)
        else if is_observation then (cur, old_wt)
        else (weighted, old_wt) in
      weighted' :: ewm_from alpha weighted' old_wt' r
  end.

Definition ewm_mean (alpha : float) (s : Series) : Series :=
  match prep_values s with
  | [] => []
  | x0 :: r => x0 :: ewm_from alpha x0 (fin 1) r
  end.

(** *** Resampling

    [s.resample(htf)] first puts the rows in time order, with a stable
    sort, and then cuts the index into buckets of [htf] seconds that
    start at midnight of the earliest day; there is one bucket for every
    step from the bucket of the earliest index entry to the bucket of the
    latest one, whether or not a row falls into it.  A bucket is labelled
    by its left edge. *)

Definition day : Z := 86400.

Definition origin (index : list Z) : Z :=
  match index with
  | [] => 0
  | t0 :: _ => (t0 / day) * day
  end.

Definition bucket_of (htf org t : Z) : Z := (t - org) / htf.

(** The integers [lo, lo+1, ..., hi]. *)
Definition zrange (lo hi : Z) : list Z :=
  map (fun k => lo + Z.of_nat k)%Z (seq 0 (Z.to_nat (hi + 1 - lo))).

Definition members (htf org k : Z) (index : list Z) (s : Series) : Series :=
  map snd
      (filter (fun tv => (bucket_of htf org (fst tv) =? k)%Z)
              (combine index s)).

(** The buckets of rows that are in time order. *)
Definition resample_sorted (htf : Z) (index : list Z) (s : Series)
  : list (Z * Series) :=
  match index with
  | [] => []
  | t0 :: _ =>
      let org := origin index in
      map (fun k => ((org + k * htf)%Z, members htf org k index s))
          (zrange (bucket_of htf org t0)
                  (bucket_of htf org (List.last index t0)))
  end.

(** Stable sort by timestamp: rows with the same timestamp keep their
    order. *)
Fixpoint insert_by_time (x : Z * float) (l : list (Z * float))
  : list (Z * float) :=
  match l with
  | [] => [x]
  | y :: r =>
      if (fst x <=? fst y)%Z then x :: l else y :: insert_by_time x r
  end.

Definition sort_by_time (l : list (Z * float)) : list (Z * float) :=
  fold_right insert_by_time [] l.

Definition resample (htf : Z) (index : list Z) (s : Series)
  : list (Z * Series) :=
  let rows := sort_by_time (combine index s) in
  resample_sorted htf (map fst rows) (map snd rows).

(** [.last()] of a bucket: its last observed value *)
Definition last_valid (s : Series) : float := List.last (dropna s) nan.

(** [x[-1]] *)
Definition last (s : Series) : float := List.last s nan.

(** [df_htf.reindex(df.index, method='ffill')] at one index entry [t]:
    the cell of the last label that is not after [t]. *)
Fixpoint reindex_ffill (labels : list Z) (s : Series) (t : Z) : float :=
  match labels, s with
  | l :: labels', x :: s' =>
      if (l <=? t)%Z then
        match labels' with
        | l' :: _ => if (l' <=? t)%Z then reindex_ffill labels' s' t else x
        | [] => x
        end
      else nan
  | _, _ => nan
  end.

End Series.
Import Series.

(* ================================================================== *)
(** ** src/utils.py *)

(** A row of the input frame.  The index of the frame is a
    [DatetimeIndex]: its entries are timestamps, whatever the number of
    rows; a frame with an index of another kind is not a [DataFrame]
    here. *)
Record Bar : Type := {
  name : Z;           (* the index entry: [row.name] *)
  open : float;
  high : float;
  low : float;
  close : float;
  volume : float
}.

Definition DataFrame : Type := list Bar.

Module Utils.

Definition alpha_of_span (span : positive) : float :=
  num (2 / (inject_Z (Z.pos span) + 1)).

Definition ema (series : Series) (span : positive) : Series :=
  ewm_mean (alpha_of_span span) series.

Definition macd (series : Series) (fast slow signal : positive)
  : Series * Series * Series :=
  let fast_ema := ema series fast in
  let slow_ema := ema series slow in
  let macd_line := map2 sub fast_ema slow_ema in
  let macd_signal := ema macd_line signal in
  let macd_hist := map2 sub macd_line macd_signal in
  (macd_line, macd_signal, macd_hist).

Definition atr (df : DataFrame) (length : positive) : Series :=
  let high := map high df in
  let low := map low df in
  let close := map close df in
  let tr1 := map2 sub high low in
  let tr2 := map abs (map2 sub high (shift1 close)) in
  let tr3 := map abs (map2 sub low (shift1 close)) in
  let tr := map2 max2 (map2 max2 tr1 tr2) tr3 in
  rolling_mean length tr.

Definition typical_price (b : Bar) : float :=
  (high b + low b + close b) / fin 3.

Definition vwap (df : DataFrame) : Series :=
  let tp := map typical_price df in
  let cum_vp := cumsum (map2 mul tp (map volume df)) in
  let cum_vol := cumsum (map volume df) in
  ffill (map2 div cum_vp cum_vol).

(** [tz] gives the zone's offset from UTC, in seconds, at an instant.
    [start] and [end_] are seconds after local midnight. *)
Definition in_ny_session_index (index : list Z) (start end_ : Z)
  (tz : Z -> Z) : list bool :=
  let times := map (fun t => ((t + tz t) mod day)%Z) index in
  map (fun t => (t >=? start)%Z && (t <=? end_)%Z) times.

End Utils.

(* ================================================================== *)
(** ** The [params] dictionary

    A field holds what [params.get(key, default)] returns.  Spans and
    window lengths are positive, as pandas requires; [tz] is the zone's
    offset from UTC and [htf] the bucket length, both in seconds. *)

Module Params.

Record t : Type := {
  ema9 : positive;
  ema21 : positive;
  ema60 : positive;
  ema200 : positive;
  macd_fast : positive;
  macd_slow : positive;
  macd_sig : positive;
  atr_len : positive;
  atr_mult : float;
  vol_sma_len : positive;
  vol_mult : float;
  session_start : Z;
  session_end : Z;
  tz : Z -> Z;
  htf : Z;
  initial_equity : float;
  daily_loss_limit_pct : float
}.

(** The defaults of the [.get] calls, for a given zone. *)
Definition default (zone : Z -> Z) : t := {|
  ema9 := 9; ema21 := 21; ema60 := 60; ema200 := 200;
  macd_fast := 12; macd_slow := 26; macd_sig := 9;
  atr_len := 14; atr_mult := num 1.2;
  vol_sma_len := 20; vol_mult := num 1.5;
  session_start := 8 * 3600 + 30 * 60;
  session_end := 16 * 3600;
  tz := zone;
  htf := 3600;
  initial_equity := fin 100000;
  daily_loss_limit_pct := num 0.15
|}.

End Params.

(* ================================================================== *)
(** ** src/strategy.py *)

Module Strategy.

(** A row of the frame that [prepare_indicators] returns. *)
Record Indicators : Type := {
  bar :> Bar;
  ema9 : float;
  ema21 : float;
  ema60 : float;
  ema200 : float;
  macd_line : float;
  macd_signal : float;
  macd_hist : float;
  atr : float;
  vwap : float;
  vol_sma : float;
  in_ny : bool
}.

Definition cell (col : Series) (i : nat) : float := nth i col nan.
Definition flag (col : list bool) (i : nat) : bool := nth i col false.

(** The rows of a frame with their positions. *)
Definition enumerate {A} (df : list A) : list (A * nat) :=
  combine df (seq 0 (List.length df)).

Definition prepare_indicators (df : DataFrame) (params : Params.t)
  : list Indicators :=
  let closes := map close df in
  let c_ema9 := Utils.ema closes (Params.ema9 params) in
  let c_ema21 := Utils.ema closes (Params.ema21 params) in
  let c_ema60 := Utils.ema closes (Params.ema60 params) in
  let c_ema200 := Utils.ema closes (Params.ema200 params) in
  let '(c_macd_line, c_macd_signal, c_macd_hist) :=
    Utils.macd closes (Params.macd_fast params) (Params.macd_slow params)
               (Params.macd_sig params) in
  let c_atr := Utils.atr df (Params.atr_len params) in
  let c_vwap := Utils.vwap df in
  let c_vol_sma :=
    rolling_mean (Params.vol_sma_len params) (map volume df) in
  let c_in_ny :=
    Utils.in_ny_session_index (map name df) (Params.session_start params)
      (Params.session_end params) (Params.tz params) in
  map (fun bi : Bar * nat =>
         let (b, i) := bi in
         {| bar := b;
            ema9 := cell c_ema9 i;
            ema21 := cell c_ema21 i;
            ema60 := cell c_ema60 i;
            ema200 := cell c_ema200 i;
            macd_line := cell c_macd_line i;
            macd_signal := cell c_macd_signal i;
            macd_hist := cell c_macd_hist i;
            atr := cell c_atr i;
            vwap := cell c_vwap i;
            vol_sma := cell c_vol_sma i;
            in_ny := flag c_in_ny i |})
      (enumerate df).

(** A row of the frame that [generate_signals] returns. *)
Record Row : Type := {
  ind :> Indicators;
  ema200_htf : float;
  macd_hist_htf : float;
  htf_bull : bool;
  htf_bear : bool;
  ema_long_stack : bool;
  ema_short_stack : bool;
  vol_ok : bool;
  vwap_long : bool;
  vwap_short : bool;
  macd_rising : bool;
  macd_falling : bool;
  pullback_to_ema : bool;
  long_setup : bool;
  short_setup : bool;
  signal : Z;
  ema9_break_long : bool;
  ema9_break_short : bool;
  macd_flip_long : bool;
  macd_flip_short : bool
}.

(** The pullback filter of one row (lines 82-83). *)
Definition pullback (close ema9 ema21 atr : float) : bool :=
  ((close <=? ema9) && (close >=? ema21))
  || (abs (close - ema21) <=? num 1.5 * atr).

(** The filters, the signal and the exit flags of one row (lines 65-98);
    [macd_hist_prev] is the row's cell of [df['macd_hist'].shift(1)]. *)
Definition signals (params : Params.t) (x : Indicators)
  (ema200_htf macd_hist_htf macd_hist_prev : float) : Row :=
  let htf_bull := (close x >? ema200_htf) && (macd_hist_htf >? fin 0) in
  let htf_bear := (close x <? ema200_htf) && (macd_hist_htf <? fin 0) in
  let ema_long_stack := (ema9 x >? ema21 x) && (ema21 x >? ema60 x) in
  let ema_short_stack := (ema9 x <? ema21 x) && (ema21 x <? ema60 x) in
  let vol_ok := volume x >? vol_sma x * Params.vol_mult params in
  let vwap_long := close x >? vwap x in
  let vwap_short := close x <? vwap x in
  let macd_rising := macd_hist x >? macd_hist_prev in
  let macd_falling := macd_hist x <? macd_hist_prev in
  let pullback_to_ema := pullback (close x) (ema9 x) (ema21 x) (atr x) in
  let long_setup :=
    in_ny x && htf_bull && ema_long_stack && vwap_long && vol_ok
    && macd_rising && pullback_to_ema in
  let short_setup :=
    in_ny x && htf_bear && ema_short_stack && vwap_short && vol_ok
    && macd_falling && pullback_to_ema in
  {| ind := x;
     ema200_htf := ema200_htf;
     macd_hist_htf := macd_hist_htf;
     htf_bull := htf_bull;
     htf_bear := htf_bear;
     ema_long_stack := ema_long_stack;
     ema_short_stack := ema_short_stack;
     vol_ok := vol_ok;
     vwap_long := vwap_long;
     vwap_short := vwap_short;
     macd_rising := macd_rising;
     macd_falling := macd_falling;
     pullback_to_ema := pullback_to_ema;
     long_setup := long_setup;
     short_setup := short_setup;
     signal := if short_setup then (-1) else if long_setup then 1 else 0;
     ema9_break_long := close x <? ema9 x;
     ema9_break_short := close x >? ema9 x;
     macd_flip_long := macd_hist x <? fin 0;
     macd_flip_short := macd_hist x >? fin 0 |}.

(** The column [ema200_htf] of [df_htf] (line 51): for each bucket, the
    last value of the EMA taken over the closes inside that bucket. *)
Definition ema200_htf_column (params : Params.t) (index : list Z)
  (closes : Series) : Series :=
  map (fun b : Z * Series =>
         let x := snd b in
         if (0 <? List.length x)%nat
         then last (Utils.ema x (Params.ema200 params))
         else nan)
      (resample (Params.htf params) index closes).

(** The column [macd_hist_htf] of [df_htf] (lines 53-57): the MACD
    histogram of the forward-filled series of bucket closes. *)
Definition macd_hist_htf_column (params : Params.t) (index : list Z)
  (closes : Series) : Series :=
  let '(_, _, macd_hist_htf) :=
    Utils.macd
      (ffill (map (fun b : Z * Series => last_valid (snd b))
                  (resample (Params.htf params) index closes)))
      (Params.macd_fast params) (Params.macd_slow params)
      (Params.macd_sig params) in
  macd_hist_htf.

Definition generate_signals (df_in : DataFrame) (params : Params.t)
  : list Row :=
  let df := prepare_indicators df_in params in
  let index := map (fun x : Indicators => name x) df in
  let closes := map (fun x : Indicators => close x) df in
  let labels := map fst (resample (Params.htf params) index closes) in
  let c_ema200_htf := ema200_htf_column params index closes in
  let c_macd_hist_htf := macd_hist_htf_column params index closes in
  let c_macd_hist_prev :=
    shift1 (map (fun x : Indicators => macd_hist x) df) in
  map (fun xi : Indicators * nat =>
         let (x, i) := xi in
         signals params x
                 (reindex_ffill labels c_ema200_htf (name x))
                 (reindex_ffill labels c_macd_hist_htf (name x))
                 (cell c_macd_hist_prev i))
      (enumerate df).

End Strategy.

(* ================================================================== *)
(** ** src/backtest.py *)

Module Backtest.
Import Strategy.

Definition CONTRACT_TICK_VALUE : float := fin 10.

Inductive Side : Type := LONG | SHORT.

(** The [position] dictionary. *)
Record Position : Type := {
  side : Side;
  entry_price : float;
  stop : float;
  tp : float;
  qty : Z;
  entry_time : Z
}.

(** An entry of [trades]: [{**position, 'exit_price': ..., ...}]. *)
Record Trade : Type := {
  opened :> Position;
  exit_price : float;
  exit_time : Z;
  pnl : float;
  reason : string
}.

(** The variables the loop of [run_backtest] updates. *)
Record State : Type := {
  equity : float;
  daily_start : Z;
  daily_pnl : float;
  position : option Position;
  trades : list Trade
}.

(** [timestamp.date()], as a day number *)
Definition date (t : Z) : Z := (t / day)%Z.

(** What every closing branch of the loop does before its [continue]:
    append the trade, add the P&L to [equity] and [daily_pnl], clear
    [position]. *)
Definition close_position (st : State) (p : Position)
  (exit_price : float) (exit_time : Z) (pnl : float) (reason : string)
  : State :=
  {| equity := equity st + pnl;
     daily_start := daily_start st;
     daily_pnl := daily_pnl st + pnl;
     position := None;
     trades := trades st ++ [ {| opened := p;
                                 exit_price := exit_price;
                                 exit_time := exit_time;
                                 pnl := pnl;
                                 reason := reason |} ] |}.

(** Lines 135-150. *)
Definition entries (params : Params.t) (st : State) (can_open : bool)
  (row : Row) : State :=
  match position st with
  | None =>
      if can_open then
        let sig := signal row in
        if (sig =? 1)%Z then
          let entry_price := open row in
          let stop := entry_price - Params.atr_mult params * atr row in
          let tp := entry_price + fin 3 * (entry_price - stop) in
          {| equity := equity st;
             daily_start := daily_start st;
             daily_pnl := daily_pnl st;
             position := Some {| side := LONG; entry_price := entry_price;
                                 stop := stop; tp := tp; qty := 1;
                                 entry_time := name row |};
             trades := trades st |}
        else if (sig =? -1)%Z then
          let entry_price := open row in
          let stop := entry_price + Params.atr_mult params * atr row in
          let tp := entry_price - fin 3 * (stop - entry_price) in
          {| equity := equity st;
             daily_start := daily_start st;
             daily_pnl := daily_pnl st;
             position := Some {| side := SHORT; entry_price := entry_price;
                                 stop := stop; tp := tp; qty := 1;
                                 entry_time := name row |};
             trades := trades st |}
        else st
      else st
  | Some _ => st
  end.

(** Lines 37-40. *)
Definition reset_daily (st : State) (row : Row) : State :=
  if negb (date (name row) =? daily_start st)%Z then
    {| equity := equity st;
       daily_start := date (name row);
       daily_pnl := fin 0;
       position := position st;
       trades := trades st |}
  else st.

Definition pnl_long (p : Position) (exit_price : float) : float :=
  (exit_price - entry_price p) * of_Z (qty p) * CONTRACT_TICK_VALUE.

Definition pnl_short (p : Position) (exit_price : float) : float :=
  (entry_price p - exit_price) * of_Z (qty p) * CONTRACT_TICK_VALUE.

(** One pass of the loop body (lines 34-150) on [row = df.iloc[i]] with
    [prev = df.iloc[i-1]]. *)
Definition step (params : Params.t) (st : State) (prev row : Row) : State :=
  let st := reset_daily st row in
  let can_open :=
    negb (daily_pnl st
          <=? - Params.daily_loss_limit_pct params * equity st) in
  match position st with
  | Some p =>
      match side p with
      | LONG =>
          if low row <=? stop p then
            let exit_price := stop p in
            close_position st p exit_price (name row)
                           (pnl_long p exit_price) "stop"
          else if high row >=? tp p then
            let exit_price := tp p in
            close_position st p exit_price (name row)
                           (pnl_long p exit_price) "tp"
          else if ema9_break_long row || macd_flip_long row then
            let exit_price := close row in
            close_position st p exit_price (name row)
                           (pnl_long p exit_price) "technical_exit"
          else if negb (in_ny row) && in_ny prev then
            let exit_price := close row in
            close_position st p exit_price (name row)
                           (pnl_long p exit_price) "session_close"
          else entries params st can_open row
      | SHORT =>
          if high row >=? stop p then
            let exit_price := stop p in
            close_position st p exit_price (name row)
                           (pnl_short p exit_price) "stop"
          else if low row <=? tp p then
            let exit_price := tp p in
            close_position st p exit_price (name row)
                           (pnl_short p exit_price) "tp"
          else if ema9_break_short row || macd_flip_short row then
            let exit_price := close row in
            close_position st p exit_price (name row)
                           (pnl_short p exit_price) "technical_exit"
          else if negb (in_ny row) && in_ny prev then
            let exit_price := close row in
            close_position st p exit_price (name row)
                           (pnl_short p exit_price) "session_close"
          else entries params st can_open row
      end
  | None => entries params st can_open row
  end.

(** [for i in range(1, len(df))] *)
Fixpoint loop (params : Params.t) (st : State) (prev : Row)
  (rest : list Row) : State :=
  match rest with
  | [] => st
  | row :: rest' => loop params (step params st prev row) row rest'
  end.

(** Lines 152-160: the forced close on [final = df.iloc[-1]]. *)
Definition end_of_data (st : State) (final : Row) : State :=
  match position st with
  | Some p =>
      let exit_price := close final in
      let pnl :=
        match side p with
        | LONG => pnl_long p exit_price
        | SHORT => pnl_short p exit_price
        end in
      {| equity := equity st + pnl;
         daily_start := daily_start st;
         daily_pnl := daily_pnl st;
         position := position st;
         trades := trades st ++ [ {| opened := p;
                                     exit_price := exit_price;
                                     exit_time := name final;
                                     pnl := pnl;
                                     reason := "end_of_data" |} ] |}
  | None => st
  end.

(** *** Faults *)

Inductive exn : Type := IndexError | KeyError.

Inductive result (A : Type) : Type :=
| Ok (a : A)
| Raise (e : exn).
Arguments Ok {A} a.
Arguments Raise {A} e.

Definition bind {A B} (r : result A) (k : A -> result B) : result B :=
  match r with
  | Ok a => k a
  | Raise e => Raise e
  end.

Notation "x <- r ;; k" := (bind r (fun x => k))
  (at level 61, r at next level, right associativity).

(** Lines 25-160 on the frame of signals: [df.index[0]] raises on a
    frame without rows. *)
Definition simulate (df : list Row) (params : Params.t) : result State :=
  match df with
  | [] => Raise IndexError
  | first :: rest =>
      let st := {| equity := Params.initial_equity params;
                   daily_start := date (name first);
                   daily_pnl := fin 0;
                   position := None;
                   trades := [] |} in
      Ok (end_of_data (loop params st first rest) (List.last df first))
  end.

(** [trades_df['pnl']]: a frame built from an empty list has no column,
    so the lookup raises. *)
Definition pnl_column (trades_df : list Trade) : result Series :=
  match trades_df with
  | [] => Raise KeyError
  | _ :: _ => Ok (map pnl trades_df)
  end.

Record Summary : Type := {
  total_pnl : float;
  win_rate : float;
  profit_factor : float
}.

(** The row selections [trades_df[trades_df['pnl'] > 0]] and
    [trades_df[trades_df['pnl'] <= 0]]. *)
Definition wins_of (trades_df : list Trade) : list Trade :=
  filter (fun t => pnl t >? fin 0) trades_df.

Definition losses_of (trades_df : list Trade) : list Trade :=
  filter (fun t => pnl t <=? fin 0) trades_df.

(** Lines 162-168. *)
Definition summary (trades_df : list Trade) : result Summary :=
  let total_pnl :=
    if negb (Nat.eqb (List.length trades_df) 0)
    then sum (map pnl trades_df) else fin 0 in
  col <- pnl_column trades_df ;;
  let wins := wins_of trades_df in
  col' <- pnl_column trades_df ;;
  let losses := losses_of trades_df in
  let win_rate :=
    if (0 <? List.length trades_df)%nat
    then of_Z (Z.of_nat (List.length wins))
         / of_Z (Z.of_nat (List.length trades_df))
    else nan in
  let profit_factor :=
    if (0 <? List.length losses)%nat
    then sum (map pnl wins) / - sum (map pnl losses)
    else nan in
  Ok {| total_pnl := total_pnl;
        win_rate := win_rate;
        profit_factor := profit_factor |}.

(** What a run hands back: the ledger, the final equity and the summary
    it prints. *)
Record Report : Type := {
  ledger : list Trade;
  final_equity : float;
  metrics : Summary
}.

Definition run_backtest (df : DataFrame) (params : Params.t)
  : result Report :=
  let df := generate_signals df params in
  st <- simulate df params ;;
  m <- summary (trades st) ;;
  Ok {| ledger := trades st; final_equity := equity st; metrics := m |}.

End Backtest.

Import Strategy Backtest.

(* ================================================================== *)
(** ** The specification's vocabulary *)

Module Spec.

(** The exit conditions of §4.4 step 3, by held side. *)
Definition stop_hit (p : Position) (row : Row) : bool :=
  match side p with
  | LONG => low row <=? stop p
  | SHORT => high row >=? stop p
  end.

Definition target_hit (p : Position) (row : Row) : bool :=
  match side p with
  | LONG => high row >=? tp p
  | SHORT => low row <=? tp p
  end.

Definition technical_exit (p : Position) (row : Row) : bool :=
  match side p with
  | LONG => ema9_break_long row || macd_flip_long row
  | SHORT => ema9_break_short row || macd_flip_short row
  end.

Definition session_close (prev row : Row) : bool :=
  negb (in_ny row) && in_ny prev.

(** The first exit condition that matches, in the order stop, target,
    technical exit, session close, with the reason the ledger records
    for it and its exit price. *)
Definition first_exit (p : Position) (prev row : Row)
  : option (string * float) :=
  if stop_hit p row then Some ("stop"%string, stop p)
  else if target_hit p row then Some ("tp"%string, tp p)
  else if technical_exit p row then Some ("technical_exit"%string, close row)
  else if session_close prev row then Some ("session_close"%string, close row)
  else None.

(** Realized P&L of §4.4: (exit - entry) x qty x tickValue for a long,
    (entry - exit) x qty x tickValue for a short. *)
Definition realized_pnl (p : Position) (exit_price : float) : float :=
  match side p with
  | LONG => (exit_price - entry_price p) * of_Z (qty p) * CONTRACT_TICK_VALUE
  | SHORT => (entry_price p - exit_price) * of_Z (qty p) * CONTRACT_TICK_VALUE
  end.

(** The close reasons as §3 lists them, and as the code writes them. *)
Definition spec_reasons : list string :=
  ["stop"; "target"; "technical_exit"; "session_close"; "end_of_data"]%string.

Definition code_reasons : list string :=
  ["stop"; "tp"; "technical_exit"; "session_close"; "end_of_data"]%string.

(** The reasons of the four exit rules of the loop. *)
Definition exit_reasons : list string :=
  ["stop"; "tp"; "technical_exit"; "session_close"]%string.

(** The held position, if any, was entered no later than [T]. *)
Definition entered_by (T : Z) (st : State) : Prop :=
  match position st with
  | Some p => (entry_time p <= T)%Z
  | None => True
  end.

(** A trade closed by an exit rule on a bar after its entry bar. *)
Definition closed_later (t : Trade) : Prop :=
  (entry_time t < exit_time t)%Z /\ In (reason t) exit_reasons.

(** §4.2 as worded: the EMA of span [ema200] over the series of bucket
    closes, the series the HTF MACD histogram is computed on. *)
Definition ema200_htf_spec_column (params : Params.t) (index : list Z)
  (closes : Series) : Series :=
  Utils.ema
    (ffill (map (fun b : Z * Series => last_valid (snd b))
                (resample (Params.htf params) index closes)))
    (Params.ema200 params).

(** §4.1: the seeded recurrence value[0] = price[0],
    value[t] = price[t] * alpha + value[t-1] * (1 - alpha). *)
Fixpoint ema_rec (alpha : Q) (value : Q) (prices : list Q) : list Q :=
  match prices with
  | [] => []
  | p :: r =>
      let v := (p * alpha + value * (1 - alpha))%Q in
      v :: ema_rec alpha v r
  end.

Definition ema_spec (alpha : Q) (prices : list Q) : list Q :=
  match prices with
  | [] => []
  | p0 :: r => p0 :: ema_rec alpha p0 r
  end.

(** §4.3 filter 6 as worded: the close lies between ema9 and ema21,
    inclusive, in either order, or within 1.5 ATR of ema21. *)
Definition pullback_spec (close ema9 ema21 atr : float) : bool :=
  ((ema21 <=? close) && (close <=? ema9))
  || ((ema9 <=? close) && (close <=? ema21))
  || (abs (close - ema21) <=? num 1.5 * atr).

(** §4.1 VWAP: the ratio of the two sums taken from the first bar up to
    and including position [i]. *)
Definition vwap_ratio (df : DataFrame) (i : nat) : float :=
  sum (firstn (S i)
         (map (fun b => (high b + low b + close b) / fin 3 * volume b) df))
  / sum (firstn (S i) (map volume df)).

(** §4.1 VWAP as worded: a leading undefined ratio, before the first
    defined one, takes the first defined value. *)
Definition leading_gap_filled (df : DataFrame) : Prop :=
  forall i j : nat,
    (i < j)%nat ->
    (j < List.length df)%nat ->
    (forall k, (k < j)%nat -> is_nan (vwap_ratio df k) = true) ->
    is_nan (vwap_ratio df j) = false ->
    nth i (Utils.vwap df) nan = vwap_ratio df j.

Definition finite_bar (b : Bar) : Prop :=
  is_fin (open b) = true /\ is_fin (high b) = true /\ is_fin (low b) = true
  /\ is_fin (close b) = true /\ is_fin (volume b) = true.

(** §4.5, spelled out: the P&L figures of the ledger that are above
    zero, and those that are at or below zero, in ledger order. *)
Fixpoint gains (ledger : list Trade) : Series :=
  match ledger with
  | [] => []
  | t :: rest => if fin 0 <? pnl t then pnl t :: gains rest else gains rest
  end.

Fixpoint losses (ledger : list Trade) : Series :=
  match ledger with
  | [] => []
  | t :: rest => if fin 0 >=? pnl t then pnl t :: losses rest else losses rest
  end.

(** §4.5: count(P&L > 0) / total trades. *)
Definition win_rate_spec (ledger : list Trade) : float :=
  of_Z (Z.of_nat (List.length (gains ledger)))
  / of_Z (Z.of_nat (List.length ledger)).

(** §4.5: sum(P&L of winning trades) / |sum(P&L of losing trades)|, a
    trade at exactly zero counting with the losing ones. *)
Definition profit_factor_spec (ledger : list Trade) : float :=
  sum (gains ledger) / abs (sum (losses ledger)).

End Spec.
Import Spec.

(* ================================================================== *)
(** ** Concrete runs *)

Module Scenario.

Local Open Scope Z_scope.

(** New York standard time. *)
Definition est (_ : Z) : Z := -18000.

(** The defaults, with an ATR multiplier of 1 and a given initial
    equity. *)
Definition params_with (initial_equity : float) : Params.t :=
  let d := Params.default est in
  {| Params.ema9 := Params.ema9 d; Params.ema21 := Params.ema21 d;
     Params.ema60 := Params.ema60 d; Params.ema200 := Params.ema200 d;
     Params.macd_fast := Params.macd_fast d;
     Params.macd_slow := Params.macd_slow d;
     Params.macd_sig := Params.macd_sig d;
     Params.atr_len := Params.atr_len d; Params.atr_mult := fin 1;
     Params.vol_sma_len := Params.vol_sma_len d;
     Params.vol_mult := Params.vol_mult d;
     Params.session_start := Params.session_start d;
     Params.session_end := Params.session_end d;
     Params.tz := est; Params.htf := Params.htf d;
     Params.initial_equity := initial_equity;
     Params.daily_loss_limit_pct := Params.daily_loss_limit_pct d |}.

Definition params1 : Params.t := params_with (fin 100000).

Definition mk (t : Z) (o h l c v : Q) : Bar :=
  {| name := t; open := num o; high := num h; low := num l;
     close := num c; volume := num v |}.

(** 09:59, 10:00 and 10:01 New York time on the first day. *)
Definition bar1 : Bar := mk 53940 100 100.5 99.5 100 1.
Definition bar2 : Bar := mk 54000 100 101 100 100.8 4.

(** Bar 3 falls through the stop (99). *)
Definition stop_bars : DataFrame :=
  [bar1; bar2; mk 54060 100.5 100.9 98 100.5 1].

(** Bar 3 reaches the target (103) and stays above the stop. *)
Definition target_bars : DataFrame :=
  [bar1; bar2; mk 54060 100.5 103.5 100.2 100.5 1].

(** Bar 3 spans both the stop and the target. *)
Definition wide_bars : DataFrame :=
  [bar1; bar2; mk 54060 100.5 104 98 100.5 1].

(** Twenty-one flat one-minute bars falling from 120 to 100, then a
    bounce to 105. *)
Definition flat (t c : Z) : Bar :=
  {| name := t; open := of_Z c; high := of_Z c; low := of_Z c;
     close := of_Z c; volume := fin 1 |}.

Definition bounce_bars : DataFrame :=
  map (fun k => flat (60 * Z.of_nat k) (120 - Z.of_nat k)) (seq 0 21)
  ++ [flat (60 * 21) 105].

(** Two bars an hour apart. *)
Definition hourly_bars : DataFrame := [flat 0 10; flat 3600 20].

(** A bar whose close is missing. *)
Definition gap_bar : Bar :=
  {| name := 54000; open := fin 100; high := fin 101; low := fin 99;
     close := nan; volume := fin 1 |}.

(** Zero volume on the first bar, and a volume correction on the third
    that takes the cumulative volume back to zero. *)
Definition corrected_volume_bars : DataFrame :=
  [mk 0 10 10 10 10 0; mk 60 11 11 11 11 2; mk 120 11 11 11 11 (-2);
   mk 180 12 12 12 12 1].

(** Zero volume on the first two bars. *)
Definition thin_bars : DataFrame :=
  [mk 0 10 10 10 10 0; mk 60 11 11 11 11 0; mk 120 12 12 12 12 2;
   mk 180 15 15 15 15 0; mk 240 18 18 18 18 1].

(** A row to stand for a position outside a frame. *)
Definition blank : Row :=
  signals params1
          {| bar := gap_bar; ema9 := nan; ema21 := nan; ema60 := nan;
             ema200 := nan; macd_line := nan; macd_signal := nan;
             macd_hist := nan; atr := nan; vwap := nan; vol_sma := nan;
             in_ny := false |}
          nan nan nan.

Definition row_at (df : DataFrame) (i : nat) : Row :=
  nth i (generate_signals df params1) blank.

(** The long that bar 2 opens: entry 100, stop 99, target 103. *)
Definition held : Position :=
  {| side := LONG; entry_price := fin 100; stop := fin 99; tp := fin 103;
     qty := 1; entry_time := 54000 |}.

(** The state of the loop after bar 2. *)
Definition after_entry : State :=
  {| equity := fin 100000; daily_start := 0; daily_pnl := fin 0;
     position := Some held; trades := [] |}.

(** The trade that closes [held] on a bar at 10:01. *)
Definition closed (exit_price pnl : float) (reason : string) : Trade :=
  {| opened := held; exit_price := exit_price; exit_time := 54060;
     pnl := pnl; reason := reason |}.

(** Bar 3 is the first bar to signal, and the last bar of the frame. *)
Definition late_bars : DataFrame :=
  [bar1; bar2; mk 54060 101 102 100.9 101.8 20].

(** The long that bar 3 of [late_bars] opens. *)
Definition late : Position :=
  {| side := LONG; entry_price := fin 101; stop := num (1499 # 15);
     tp := num (521 # 5); qty := 1; entry_time := 54060 |}.

(** The state in which the run over [late_bars] ends. *)
Definition late_run : State :=
  {| equity := fin 100008; daily_start := 0; daily_pnl := fin 0;
     position := Some late;
     trades := [ {| opened := late; exit_price := num (509 # 5);
                    exit_time := 54060; pnl := fin 8;
                    reason := "end_of_data" |} ] |}.

(** The state in which the run over [stop_bars] ends. *)
Definition stop_run : State :=
  {| equity := fin 99990; daily_start := 0; daily_pnl := fin (-10);
     position := None; trades := [closed (fin 99) (fin (-10)) "stop"] |}.

(** After the stop on bar 3, bar 4 signals again; bar 5 ends the data. *)
Definition reentry_bars : DataFrame :=
  stop_bars ++ [mk 54120 100.6 100.9 100.4 100.799 30;
                mk 54180 100.7 100.8 100.5 100.6 1].

(** The long that bar 4 of [reentry_bars] opens. *)
Definition second : Position :=
  {| side := LONG; entry_price := num 100.6; stop := num 99.25;
     tp := num 104.65; qty := 1; entry_time := 54120 |}.

(** The state in which the run over [reentry_bars] ends. *)
Definition reentry_run : State :=
  {| equity := fin 99990; daily_start := 0; daily_pnl := fin (-10);
     position := Some second;
     trades := [closed (fin 99) (fin (-10)) "stop";
                {| opened := second; exit_price := num 100.6;
                   exit_time := 54180; pnl := fin 0;
                   reason := "end_of_data" |}] |}.

(** The state in which the run over [target_bars] ends. *)
Definition target_run : State :=
  {| equity := fin 100030; daily_start := 0; daily_pnl := fin 30;
     position := None; trades := [closed (fin 103) (fin 30) "tp"] |}.

End Scenario.

(* ================================================================== *)
(** ** Vocabulary for the ledger and the signal frame *)

Module Ledger.

(** 1 while a position is held, 0 otherwise. *)
Definition held_count (st : State) : nat :=
  match position st with
  | Some _ => 1
  | None => 0
  end.

(** Each trade is closed before the next one is entered. *)
Fixpoint chronological (l : list Trade) : Prop :=
  match l with
  | t1 :: ((t2 :: _) as rest) =>
      (exit_time t1 < entry_time t2)%Z /\ chronological rest
  | _ => True
  end.

(** The position that line 143 builds from a row, and the one of
    line 149. *)
Definition long_entry (params : Params.t) (row : Row) : Position :=
  let entry_price := open row in
  let stop := entry_price - Params.atr_mult params * atr row in
  {| side := LONG; entry_price := entry_price; stop := stop;
     tp := entry_price + fin 3 * (entry_price - stop); qty := 1;
     entry_time := name row |}.

Definition short_entry (params : Params.t) (row : Row) : Position :=
  let entry_price := open row in
  let stop := entry_price + Params.atr_mult params * atr row in
  {| side := SHORT; entry_price := entry_price; stop := stop;
     tp := entry_price - fin 3 * (stop - entry_price); qty := 1;
     entry_time := name row |}.

(** [p] is the position that the entry branch opens on [row]. *)
Definition entered_on (params : Params.t) (row : Row) (p : Position)
  : Prop :=
  (signal row = 1%Z /\ p = long_entry params row)
  \/ (signal row = (-1)%Z /\ p = short_entry params row).

(** [p] was entered on one of [rows]. *)
Definition entered_among (params : Params.t) (rows : list Row)
  (p : Position) : Prop :=
  exists row, In row rows /\ entered_on params row p.

(** The trade that the forced close of lines 152-160 appends. *)
Definition forced_close (p : Position) (final : Row) : Trade :=
  {| opened := p;
     exit_price := close final;
     exit_time := name final;
     pnl := realized_pnl p (close final);
     reason := "end_of_data" |}.

(** The local time of day of an index entry, as
    [in_ny_session_index] computes it. *)
Definition local_time (params : Params.t) (t : Z) : Z :=
  ((t + Params.tz params t) mod day)%Z.

Definition in_session (params : Params.t) (t : Z) : Prop :=
  (Params.session_start params <= local_time params t
   <= Params.session_end params)%Z.

(** A finite value that is not negative. *)
Definition nonneg (x : float) : Prop :=
  exists q, x = fin q /\ (0 <= q)%Q.

(** A finite value that is positive. *)
Definition positive_fin (x : float) : Prop :=
  exists q, x = fin q /\ (0 < q)%Q.

(** The trades of the ledger closed on day [d]. *)
Definition closed_on (d : Z) (l : list Trade) : list Trade :=
  filter (fun t => (date (exit_time t) =? d)%Z) l.

(** The bucket of the higher timeframe that a timestamp falls into, for
    a frame with the given index. *)
Definition own_bucket (params : Params.t) (index : list Z) (t : Z) : Z :=
  bucket_of (Params.htf params) (origin index) t.

(** The closes of all the bars of the frame that fall into the bucket of
    [t], in frame order. *)
Definition bucket_closes (params : Params.t) (df : DataFrame) (t : Z)
  : Series :=
  map close
      (filter (fun b : Bar =>
                 (own_bucket params (map name df) (name b)
                  =? own_bucket params (map name df) t)%Z)
              df).

End Ledger.
Import Ledger.

(* ================================================================== *)
(** ** Faults of a run *)

Lemma simulate_nonempty (first : Row) (rest : list Row) (params : Params.t) :
  exists st, simulate (first :: rest) params = Ok st.
Proof. eexists. reflexivity. Qed.

Lemma gt_is_lt_swapped (x y : float) : (x >? y) = (y <? x).
Proof.
  unfold gt, lt, cmp. destruct x as [| | |a], y as [| | |b]; try reflexivity.
  rewrite <- (Qcompare_antisym a b). destruct (a ?= b)%Q; reflexivity.
Qed.

Lemma le_is_ge_swapped (x y : float) : (x <=? y) = (y >=? x).
Proof.
  unfold le, ge, cmp. destruct x as [| | |a], y as [| | |b]; try reflexivity.
  rewrite <- (Qcompare_antisym a b). destruct (a ?= b)%Q; reflexivity.
Qed.

(** The rows the code selects as wins carry the P&L figures above zero,
    and the rows it selects as losses those at or below zero. *)
Lemma wins_of_gains (trades_df : list Trade) :
  map pnl (wins_of trades_df) = gains trades_df.
Proof.
  induction trades_df as [|t l IH]; [reflexivity|].
  unfold wins_of in *. cbn [filter gains].
  rewrite gt_is_lt_swapped. destruct (fin 0 <? pnl t); cbn [map];
    rewrite IH; reflexivity.
Qed.

Lemma losses_of_losses (trades_df : list Trade) :
  map pnl (losses_of trades_df) = losses trades_df.
Proof.
  induction trades_df as [|t l IH]; [reflexivity|].
  unfold losses_of in *. cbn [filter losses].
  rewrite le_is_ge_swapped. destruct (fin 0 >=? pnl t); cbn [map];
    rewrite IH; reflexivity.
Qed.

Lemma summary_nonempty (t : Trade) (l : list Trade) :
  exists m, summary (t :: l) = Ok m
            /\ win_rate m = win_rate_spec (t :: l)
            /\ profit_factor m =
               match losses_of (t :: l) with
               | [] => nan
               | _ :: _ => sum (map pnl (wins_of (t :: l)))
                           / - sum (map pnl (losses_of (t :: l)))
               end.
Proof.
  eexists. split; [reflexivity|]. split.
  - cbn [win_rate]. unfold win_rate_spec.
    rewrite <- wins_of_gains, length_map. reflexivity.
  - cbn [profit_factor]. destruct (losses_of (t :: l)); reflexivity.
Qed.

(** C3. On an empty bar sequence the run does not reach its summary: the
    signal frame is empty and [df.index[0]] raises, so nothing is
    reported. *)
Theorem empty_bars_raise (params : Params.t) :
  generate_signals [] params = []
  /\ simulate [] params = Raise IndexError
  /\ run_backtest [] params = Raise IndexError.
Proof.
  repeat split.
Qed.

(** C7. With zero trades the summary is not computed: the lookup of the
    P&L column of the empty ledger raises before win rate and profit
    factor are formed, on an empty ledger as such and on a run of one bar,
    whose ledger is empty. *)
Theorem summary_of_no_trades_raises :
  summary [] = Raise KeyError
  /\ (exists st, simulate (generate_signals [Scenario.bar1] Scenario.params1)
                          Scenario.params1 = Ok st
                 /\ trades st = [])
  /\ run_backtest [Scenario.bar1] Scenario.params1 = Raise KeyError.
Proof.
  split; [reflexivity|]. split.
  - eexists. split; vm_compute; reflexivity.
  - vm_compute. reflexivity.
Qed.

(* ================================================================== *)
(** ** Pullback filter *)

Lemma pullback_rows (df : DataFrame) (params : Params.t) (r : Row) :
  In r (generate_signals df params) ->
  pullback_to_ema r = pullback (close r) (ema9 r) (ema21 r) (atr r).
Proof.
  unfold generate_signals. intros H.
  apply in_map_iff in H. destruct H as [[x i] [<- _]]. reflexivity.
Qed.

(** C6. On the last bar of the bounce run the close (105) lies between
    ema9 and ema21 with ema9 below ema21, and farther than 1.5 ATR from
    ema21: the filter as worded holds, the column of the code is false. *)
Theorem pullback_misses_reversed_band :
  let r := List.last
             (generate_signals Scenario.bounce_bars (Params.default Scenario.est))
             Scenario.blank in
  close r = fin 105
  /\ (ema9 r <=? close r) = true
  /\ (close r <=? ema21 r) = true
  /\ (abs (close r - ema21 r) <=? num 1.5 * atr r) = false
  /\ pullback_spec (close r) (ema9 r) (ema21 r) (atr r) = true
  /\ pullback_to_ema r = false
  /\ pullback (fin 15) (fin 10) (fin 20) (fin 1) = false
  /\ pullback_spec (fin 15) (fin 10) (fin 20) (fin 1) = true.
Proof.
  vm_compute. repeat split.
Qed.

(* ================================================================== *)
(** ** Higher-timeframe EMA *)

(** C5. For two bars an hour apart with closes 10 and 20, the code's
    column holds 20 for the second bucket (the EMA restarts inside each
    bucket), where the EMA over the bucket closes gives 10 + 10 * 2/201;
    the MACD histogram of the same frame is taken over the bucket closes. *)
Theorem ema200_htf_restarts_in_each_bucket :
  let params := Params.default Scenario.est in
  let index := map name Scenario.hourly_bars in
  let closes := map close Scenario.hourly_bars in
  ema200_htf_column params index closes = [fin 10; fin 20]
  /\ ema200_htf_spec_column params index closes = [fin 10; fin (2030 # 201)]
  /\ map ema200_htf (generate_signals Scenario.hourly_bars params)
     = [fin 10; fin 20]
  /\ macd_hist_htf_column params index closes
     = (let '(_, _, h) := Utils.macd [fin 10; fin 20] 12 26 9 in h).
Proof.
  vm_compute. repeat split.
Qed.

(* ================================================================== *)
(** ** Rows of the signal frame *)

Lemma map_enumerate_fst {A B} (f : A * nat -> B) (g : B -> A) (l : list A) :
  (forall a i, g (f (a, i)) = a) ->
  map g (map f (enumerate l)) = l.
Proof.
  intros Hg. unfold enumerate. generalize 0%nat.
  induction l as [|a l IH]; intros n; simpl; [reflexivity|].
  rewrite Hg, IH. reflexivity.
Qed.

Lemma prepare_indicators_bars (df : DataFrame) (params : Params.t) :
  map bar (prepare_indicators df params) = df.
Proof.
  unfold prepare_indicators.
  destruct (Utils.macd _ _ _ _) as [[c_line c_signal] c_hist].
  apply map_enumerate_fst. reflexivity.
Qed.

Lemma generate_signals_ind (df : DataFrame) (params : Params.t) :
  map ind (generate_signals df params) = prepare_indicators df params.
Proof.
  unfold generate_signals. apply map_enumerate_fst. reflexivity.
Qed.

(** The signal frame keeps the bars, in order. *)
Lemma generate_signals_bars (df : DataFrame) (params : Params.t) :
  map (fun r : Row => bar r) (generate_signals df params) = df.
Proof.
  rewrite <- (prepare_indicators_bars df params) at 2.
  rewrite <- generate_signals_ind, map_map. reflexivity.
Qed.

Lemma generate_signals_rows (df : DataFrame) (params : Params.t) (r : Row) :
  In r (generate_signals df params) ->
  exists x e m h, r = signals params x e m h.
Proof.
  unfold generate_signals. intros H.
  apply in_map_iff in H. destruct H as [[x i] [<- _]].
  do 4 eexists. reflexivity.
Qed.

(** Comparisons with an undefined value are false. *)
Lemma gt_nan_r (x y : float) : is_nan y = true -> (x >? y) = false.
Proof. destruct y; try discriminate. destruct x; reflexivity. Qed.

Lemma lt_nan_r (x y : float) : is_nan y = true -> (x <? y) = false.
Proof. destruct y; try discriminate. destruct x; reflexivity. Qed.

Lemma gt_nan_l (x y : float) : is_nan x = true -> (x >? y) = false.
Proof. destruct x; try discriminate. reflexivity. Qed.

Lemma lt_nan_l (x y : float) : is_nan x = true -> (x <? y) = false.
Proof. destruct x; try discriminate. reflexivity. Qed.

(* ================================================================== *)
(** ** One bar of the loop *)

Lemma reset_daily_position (st : State) (row : Row) :
  position (reset_daily st row) = position st.
Proof. unfold reset_daily. destruct (negb _); reflexivity. Qed.

Lemma reset_daily_trades (st : State) (row : Row) :
  trades (reset_daily st row) = trades st.
Proof. unfold reset_daily. destruct (negb _); reflexivity. Qed.

Lemma reset_daily_equity (st : State) (row : Row) :
  equity (reset_daily st row) = equity st.
Proof. unfold reset_daily. destruct (negb _); reflexivity. Qed.

Lemma entries_held (params : Params.t) (st : State) (can_open : bool)
  (row : Row) (p : Position) :
  position st = Some p -> entries params st can_open row = st.
Proof. unfold entries. intros ->. reflexivity. Qed.

Lemma entries_trades (params : Params.t) (st : State) (can_open : bool)
  (row : Row) :
  trades (entries params st can_open row) = trades st.
Proof.
  unfold entries.
  destruct (position st), can_open; try reflexivity.
  destruct (signal row =? 1)%Z; [reflexivity|].
  destruct (signal row =? -1)%Z; reflexivity.
Qed.

(** A position that [entries] leaves behind is the one it found or one
    entered on this row. *)
Lemma entries_position (params : Params.t) (st : State) (can_open : bool)
  (row : Row) :
  position (entries params st can_open row) = position st
  \/ (position st = None /\ signal row <> 0%Z
      /\ exists p, position (entries params st can_open row) = Some p
                   /\ entry_time p = name row
                   /\ entry_price p = open row).
Proof.
  unfold entries.
  destruct (position st) eqn:Hp; [left; assumption|].
  destruct can_open; [|left; assumption].
  destruct (signal row =? 1)%Z eqn:H1.
  - right. apply Z.eqb_eq in H1. repeat split; [lia|].
    eexists. repeat split.
  - destruct (signal row =? -1)%Z eqn:H2; [|left; assumption].
    right. apply Z.eqb_eq in H2. repeat split; [lia|].
    eexists. repeat split.
Qed.

(** What a bar does to a held position: the first matching exit closes
    it, and without a match the bar leaves it alone. *)
Lemma step_held (params : Params.t) (st : State) (prev row : Row)
  (p : Position) :
  position st = Some p ->
  step params st prev row =
  match first_exit p prev row with
  | Some (why, px) =>
      close_position (reset_daily st row) p px (name row)
                     (realized_pnl p px) why
  | None => reset_daily st row
  end.
Proof.
  intros Hp. unfold step, first_exit, stop_hit, target_hit, technical_exit,
    session_close, realized_pnl, pnl_long, pnl_short.
  rewrite reset_daily_position, Hp.
  destruct (side p).
  - destruct (low row <=? stop p); [reflexivity|].
    destruct (high row >=? tp p); [reflexivity|].
    destruct (ema9_break_long row || macd_flip_long row); [reflexivity|].
    destruct (negb (in_ny row) && in_ny prev); [reflexivity|].
    apply entries_held with (p := p).
    rewrite reset_daily_position. assumption.
  - destruct (high row >=? stop p); [reflexivity|].
    destruct (low row <=? tp p); [reflexivity|].
    destruct (ema9_break_short row || macd_flip_short row); [reflexivity|].
    destruct (negb (in_ny row) && in_ny prev); [reflexivity|].
    apply entries_held with (p := p).
    rewrite reset_daily_position. assumption.
Qed.

Lemma step_idle (params : Params.t) (st : State) (prev row : Row) :
  position st = None ->
  step params st prev row =
  entries params (reset_daily st row)
          (negb (daily_pnl (reset_daily st row)
                 <=? - Params.daily_loss_limit_pct params
                     * equity (reset_daily st row)))
          row.
Proof.
  intros Hp. unfold step. rewrite reset_daily_position, Hp. reflexivity.
Qed.

(* ================================================================== *)
(** ** Exit priority *)

(** C1. While a position is held, a bar realizes the first exit condition
    that matches in the order stop, target, technical exit, session close,
    and only that one: a single trade is appended, with the reason and the
    exit price of that condition, the P&L is added once, and the bar ends
    with no position whatever its signal; without a match the ledger and
    the position are unchanged. *)
Theorem exit_priority_first_match (params : Params.t) (st : State)
  (prev row : Row) (p : Position) :
  position st = Some p ->
  match first_exit p prev row with
  | Some (why, px) =>
      trades (step params st prev row)
      = trades st ++ [ {| opened := p; exit_price := px;
                          exit_time := name row;
                          pnl := realized_pnl p px; reason := why |} ]
      /\ equity (step params st prev row) = equity st + realized_pnl p px
      /\ position (step params st prev row) = None
  | None =>
      trades (step params st prev row) = trades st
      /\ equity (step params st prev row) = equity st
      /\ position (step params st prev row) = Some p
  end.
Proof.
  intros Hp. rewrite (step_held params st prev row p Hp).
  destruct (first_exit p prev row) as [[why px]|].
  - unfold close_position. cbn [trades equity position].
    rewrite reset_daily_trades, reset_daily_equity. repeat split.
  - rewrite reset_daily_trades, reset_daily_equity, reset_daily_position.
    repeat split. assumption.
Qed.

(** On a bar that spans the stop and the target of the held long, the
    stop is the exit that is realized. *)
Lemma exit_priority_first_match_witness :
  position Scenario.after_entry = Some Scenario.held
  /\ match first_exit Scenario.held (Scenario.row_at Scenario.wide_bars 1)
                      (Scenario.row_at Scenario.wide_bars 2) with
     | Some (why, px) =>
         trades (step Scenario.params1 Scenario.after_entry
                      (Scenario.row_at Scenario.wide_bars 1)
                      (Scenario.row_at Scenario.wide_bars 2))
         = trades Scenario.after_entry
           ++ [ {| opened := Scenario.held; exit_price := px;
                   exit_time := name (Scenario.row_at Scenario.wide_bars 2);
                   pnl := realized_pnl Scenario.held px; reason := why |} ]
         /\ equity (step Scenario.params1 Scenario.after_entry
                         (Scenario.row_at Scenario.wide_bars 1)
                         (Scenario.row_at Scenario.wide_bars 2))
            = equity Scenario.after_entry + realized_pnl Scenario.held px
         /\ position (step Scenario.params1 Scenario.after_entry
                           (Scenario.row_at Scenario.wide_bars 1)
                           (Scenario.row_at Scenario.wide_bars 2)) = None
     | None =>
         trades (step Scenario.params1 Scenario.after_entry
                      (Scenario.row_at Scenario.wide_bars 1)
                      (Scenario.row_at Scenario.wide_bars 2))
         = trades Scenario.after_entry
         /\ equity (step Scenario.params1 Scenario.after_entry
                         (Scenario.row_at Scenario.wide_bars 1)
                         (Scenario.row_at Scenario.wide_bars 2))
            = equity Scenario.after_entry
         /\ position (step Scenario.params1 Scenario.after_entry
                           (Scenario.row_at Scenario.wide_bars 1)
                           (Scenario.row_at Scenario.wide_bars 2))
            = Some Scenario.held
     end.
Proof.
  split; [reflexivity|].
  apply exit_priority_first_match. reflexivity.
Defined.

(** The wide bar matches the stop and the target at once, and the loop
    reaches it holding the long of bar 2. *)
Lemma wide_bar_matches_two_exits :
  let prev := Scenario.row_at Scenario.wide_bars 1 in
  let row := Scenario.row_at Scenario.wide_bars 2 in
  stop_hit Scenario.held row = true
  /\ target_hit Scenario.held row = true
  /\ first_exit Scenario.held prev row = Some ("stop"%string, fin 99)
  /\ step Scenario.params1
          {| equity := fin 100000; daily_start := 0; daily_pnl := fin 0;
             position := None; trades := [] |}
          (Scenario.row_at Scenario.wide_bars 0) prev
     = Scenario.after_entry.
Proof.
  vm_compute. repeat split.
Qed.

(* ================================================================== *)
(** ** Undefined higher-timeframe values *)

Lemma signals_htf_undefined (params : Params.t) (x : Indicators)
  (e m h : float) :
  is_nan e || is_nan m = true ->
  htf_bull (signals params x e m h) = false
  /\ htf_bear (signals params x e m h) = false
  /\ signal (signals params x e m h) = 0%Z.
Proof.
  intros H. cbn [signals htf_bull htf_bear signal long_setup short_setup].
  assert (Hb : (close x >? e) && (m >? fin 0) = false).
  { apply orb_true_iff in H. destruct H as [H|H].
    - rewrite (gt_nan_r _ _ H). reflexivity.
    - rewrite (gt_nan_l _ _ H). apply andb_false_r. }
  assert (Hs : (close x <? e) && (m <? fin 0) = false).
  { apply orb_true_iff in H. destruct H as [H|H].
    - rewrite (lt_nan_r _ _ H). reflexivity.
    - rewrite (lt_nan_l _ _ H). apply andb_false_r. }
  unfold signals. cbn.
  rewrite Hb, Hs, !andb_false_r. cbn. repeat split.
Qed.

Lemma entries_no_signal (params : Params.t) (st : State) (can_open : bool)
  (row : Row) :
  signal row = 0%Z -> entries params st can_open row = st.
Proof.
  intros H. unfold entries. rewrite H. cbn.
  destruct (position st), can_open; reflexivity.
Qed.

Lemma step_no_signal (params : Params.t) (st : State) (prev row : Row) :
  signal row = 0%Z ->
  position (step params st prev row) = None
  \/ position (step params st prev row) = position st.
Proof.
  intros H. destruct (position st) as [p|] eqn:Hp.
  - rewrite (step_held params st prev row p Hp).
    destruct (first_exit p prev row) as [[why px]|].
    + left. reflexivity.
    + right. rewrite reset_daily_position. assumption.
  - left. rewrite (step_idle params st prev row Hp).
    rewrite entries_no_signal by assumption.
    rewrite reset_daily_position. assumption.
Qed.

(** C10. On a row of the signal frame whose attached higher-timeframe
    ema200 or MACD histogram is undefined, [htf_bull] and [htf_bear] are
    false and the signal is 0; the loop opens no position on that row: it
    ends the bar with no position or with the one it already held. *)
Theorem undefined_htf_blocks_entry (df : DataFrame) (params : Params.t)
  (r : Row) :
  In r (generate_signals df params) ->
  is_nan (ema200_htf r) || is_nan (macd_hist_htf r) = true ->
  htf_bull r = false
  /\ htf_bear r = false
  /\ signal r = 0%Z
  /\ forall (st : State) (prev : Row),
       position (step params st prev r) = None
       \/ position (step params st prev r) = position st.
Proof.
  intros Hin Hnan.
  destruct (generate_signals_rows df params r Hin) as (x & e & m & h & ->).
  cbn [ema200_htf macd_hist_htf signals] in Hnan.
  destruct (signals_htf_undefined params x e m h Hnan) as (Hb & Hs & Hz).
  repeat split; try assumption.
  intros st prev. apply step_no_signal. assumption.
Qed.

(** A frame of one bar whose close is missing: its higher-timeframe
    ema200 is undefined. *)
Lemma undefined_htf_blocks_entry_witness :
  let r := Scenario.row_at [Scenario.gap_bar] 0 in
  In r (generate_signals [Scenario.gap_bar] Scenario.params1)
  /\ is_nan (ema200_htf r) || is_nan (macd_hist_htf r) = true
  /\ htf_bull r = false
  /\ htf_bear r = false
  /\ signal r = 0%Z
  /\ forall (st : State) (prev : Row),
       position (step Scenario.params1 st prev r) = None
       \/ position (step Scenario.params1 st prev r) = position st.
Proof.
  assert (Hin : In (Scenario.row_at [Scenario.gap_bar] 0)
                   (generate_signals [Scenario.gap_bar] Scenario.params1))
    by (left; reflexivity).
  assert (Hnan : is_nan (ema200_htf (Scenario.row_at [Scenario.gap_bar] 0))
                 || is_nan (macd_hist_htf (Scenario.row_at [Scenario.gap_bar] 0))
                 = true)
    by (vm_compute; reflexivity).
  split; [exact Hin|]. split; [exact Hnan|].
  exact (undefined_htf_blocks_entry [Scenario.gap_bar] Scenario.params1
           (Scenario.row_at [Scenario.gap_bar] 0) Hin Hnan).
Defined.

(* ================================================================== *)
(** ** Close reasons *)

Lemma first_exit_reason (p : Position) (prev row : Row) (why : string)
  (px : float) :
  first_exit p prev row = Some (why, px) -> In why code_reasons.
Proof.
  unfold first_exit, code_reasons.
  destruct (stop_hit p row); [intros [= <- _]; simpl; tauto|].
  destruct (target_hit p row); [intros [= <- _]; simpl; tauto|].
  destruct (technical_exit p row); [intros [= <- _]; simpl; tauto|].
  destruct (session_close prev row); [intros [= <- _]; simpl; tauto|].
  discriminate.
Qed.

(** The trades of the ledger after a bar: those before it, and at most
    one more, closed on this bar by the first matching exit. *)
Lemma step_trades (params : Params.t) (st : State) (prev row : Row) :
  trades (step params st prev row) = trades st
  \/ exists p why px,
       position st = Some p
       /\ first_exit p prev row = Some (why, px)
       /\ trades (step params st prev row)
          = trades st ++ [ {| opened := p; exit_price := px;
                              exit_time := name row;
                              pnl := realized_pnl p px; reason := why |} ].
Proof.
  destruct (position st) as [p|] eqn:Hp.
  - rewrite (step_held params st prev row p Hp).
    destruct (first_exit p prev row) as [[why px]|] eqn:Hx.
    + right. exists p, why, px.
      split; [reflexivity|]. split; [assumption|].
      unfold close_position. cbn [trades]. rewrite reset_daily_trades.
      reflexivity.
    + left. apply reset_daily_trades.
  - left. rewrite (step_idle params st prev row Hp).
    rewrite entries_trades. apply reset_daily_trades.
Qed.

Lemma loop_reasons (params : Params.t) (rest : list Row) :
  forall (st : State) (prev : Row),
    Forall (fun t => In (reason t) code_reasons) (trades st) ->
    Forall (fun t => In (reason t) code_reasons)
           (trades (loop params st prev rest)).
Proof.
  induction rest as [|row rest IH]; intros st prev H; simpl; [assumption|].
  apply IH.
  destruct (step_trades params st prev row) as [->|(p & why & px & _ & Hx & ->)];
    [assumption|].
  apply Forall_app. split; [assumption|].
  constructor; [|constructor].
  cbn [reason]. eapply first_exit_reason. eassumption.
Qed.

Lemma end_of_data_reasons (st : State) (final : Row) :
  Forall (fun t => In (reason t) code_reasons) (trades st) ->
  Forall (fun t => In (reason t) code_reasons)
         (trades (end_of_data st final)).
Proof.
  intros H. unfold end_of_data. destruct (position st); [|assumption].
  cbn [trades]. apply Forall_app. split; [assumption|].
  constructor; [|constructor]. cbn. tauto.
Qed.

(** C4, as the code has it. Every trade of the ledger carries one of the
    reasons stop, tp, technical_exit, session_close, end_of_data; a close
    on the target (the stop not being hit) is recorded with reason tp, at
    the target price. *)
Theorem ledger_reasons (rows : list Row) (params : Params.t) (st : State) :
  simulate rows params = Ok st ->
  Forall (fun t => In (reason t) code_reasons) (trades st)
  /\ forall (s : State) (prev row : Row) (p : Position),
       position s = Some p ->
       stop_hit p row = false ->
       target_hit p row = true ->
       exists t, trades (step params s prev row) = trades s ++ [t]
                 /\ reason t = "tp"%string
                 /\ exit_price t = tp p.
Proof.
  intros H. split.
  - unfold simulate in H. destruct rows as [|first rest]; [discriminate|].
    injection H as <-.
    apply end_of_data_reasons, loop_reasons. constructor.
  - intros s prev row p Hp Hs Ht.
    rewrite (step_held params s prev row p Hp).
    unfold first_exit. rewrite Hs, Ht.
    unfold close_position. cbn [trades]. rewrite reset_daily_trades.
    eexists. split; [reflexivity|]. split; reflexivity.
Qed.

(** The run over [target_bars] ends with one trade, closed on the target
    with reason tp. *)
Lemma ledger_reasons_witness :
  simulate (generate_signals Scenario.target_bars Scenario.params1)
           Scenario.params1 = Ok Scenario.target_run
  /\ Forall (fun t => In (reason t) code_reasons)
            (trades Scenario.target_run)
  /\ forall (s : State) (prev row : Row) (p : Position),
       position s = Some p ->
       stop_hit p row = false ->
       target_hit p row = true ->
       exists t, trades (step Scenario.params1 s prev row) = trades s ++ [t]
                 /\ reason t = "tp"%string
                 /\ exit_price t = tp p.
Proof.
  assert (H : simulate (generate_signals Scenario.target_bars Scenario.params1)
                       Scenario.params1 = Ok Scenario.target_run)
    by (vm_compute; reflexivity).
  split; [exact H|].
  exact (ledger_reasons _ _ _ H).
Defined.

(** C4, as stated, fails: the trade that the run over [target_bars]
    closes on its target (exit price 103, the position's target) carries
    the reason tp, which is not among stop, target, technical_exit,
    session_close, end_of_data. *)
Lemma target_reason_counterexample :
  simulate (generate_signals Scenario.target_bars Scenario.params1)
           Scenario.params1 = Ok Scenario.target_run
  /\ trades Scenario.target_run
     = [Scenario.closed (tp Scenario.held) (fin 30) "tp"]
  /\ ~ Forall (fun t => In (reason t) spec_reasons)
              (trades Scenario.target_run)
  /\ ~ Forall (fun t => exit_price t = tp t -> reason t = "target"%string)
              (trades Scenario.target_run).
Proof.
  split; [vm_compute; reflexivity|]. split; [reflexivity|]. split.
  - intros H. inversion H as [|t l Hin _]; subst.
    cbn in Hin. repeat (destruct Hin as [Hin|Hin]; [discriminate|]).
    exact Hin.
  - intros H. inversion H as [|t l Ht _]; subst.
    cbn in Ht. specialize (Ht eq_refl). discriminate.
Qed.

(* ================================================================== *)
(** ** Stop exits *)

(** The signal frame of the three-bar run does not depend on the initial
    equity. *)
Lemma stop_bars_rows (e : float) :
  generate_signals Scenario.stop_bars (Scenario.params_with e)
  = [Scenario.row_at Scenario.stop_bars 0;
     Scenario.row_at Scenario.stop_bars 1;
     Scenario.row_at Scenario.stop_bars 2].
Proof. vm_compute. reflexivity. Qed.

(** With a positive equity and no loss on the day, the daily loss limit
    (15 %) is not reached. *)
Lemma can_open_positive_equity (e : Q) :
  (0 < e)%Q -> (fin 0 <=? - num 0.15 * fin e) = false.
Proof.
  intros He.
  assert (H : (Qred ((-3 # 20) * e) < 0)%Q).
  { rewrite Qred_correct. destruct e as [n d].
    unfold Qlt, Qmult in *. cbn [Qnum Qden] in *. lia. }
  change (match (0 ?= Qred ((-3 # 20) * e))%Q with
          | Lt | Eq => true
          | Gt => false
          end = false).
  apply Qgt_alt in H. rewrite H. reflexivity.
Qed.

Lemma stop_bars_run (e : Q) :
  (0 < e)%Q ->
  run_backtest Scenario.stop_bars (Scenario.params_with (fin e))
  = Ok {| ledger := [Scenario.closed (fin 99) (fin (-10)) "stop"];
          final_equity := fin e - fin 10;
          metrics := {| total_pnl := fin (-10); win_rate := fin 0;
                        profit_factor := fin 0 |} |}.
Proof.
  intros He. unfold run_backtest. rewrite stop_bars_rows.
  unfold simulate. cbn [bind loop].
  set (r0 := Scenario.row_at Scenario.stop_bars 0).
  set (r1 := Scenario.row_at Scenario.stop_bars 1).
  set (r2 := Scenario.row_at Scenario.stop_bars 2).
  set (st0 := {| equity := _ |}).
  assert (H1 : step (Scenario.params_with (fin e)) st0 r0 r1
               = {| equity := fin e; daily_start := 0; daily_pnl := fin 0;
                    position := Some Scenario.held; trades := [] |}).
  { rewrite step_idle by reflexivity.
    change (reset_daily st0 r1) with st0.
    change (daily_pnl st0) with (fin 0). change (equity st0) with (fin e).
    change (Params.daily_loss_limit_pct (Scenario.params_with (fin e)))
      with (num 0.15).
    rewrite (can_open_positive_equity e He). reflexivity. }
  rewrite H1.
  rewrite step_held with (p := Scenario.held) by reflexivity.
  change (first_exit Scenario.held r1 r2) with (Some ("stop"%string, fin 99)).
  reflexivity.
Qed.

(** C2. A bar that hits the stop of the held position closes it at the
    stored stop price, with reason stop and the P&L (exit - entry) x qty x
    tickValue for a long and (entry - exit) x qty x tickValue for a short.
    In the run of three bars where bar 2 signals a long with open 100 and
    ATR 1, the ATR multiplier being 1 and the tick value 10, bar 3 (low 98)
    closes the trade at 99 with reason stop and P&L -10, and the final
    equity is the initial equity less 10, whatever positive initial equity
    the run starts from. *)
Theorem stop_exit_at_stop_price :
  (forall (params : Params.t) (st : State) (prev row : Row) (p : Position),
      position st = Some p ->
      stop_hit p row = true ->
      exists t,
        trades (step params st prev row) = trades st ++ [t]
        /\ opened t = p
        /\ reason t = "stop"%string
        /\ exit_price t = stop p
        /\ pnl t = match side p with
                   | LONG => (exit_price t - entry_price p) * of_Z (qty p)
                             * CONTRACT_TICK_VALUE
                   | SHORT => (entry_price p - exit_price t) * of_Z (qty p)
                              * CONTRACT_TICK_VALUE
                   end
        /\ equity (step params st prev row) = equity st + pnl t)
  /\ (forall e : Q,
        (0 < e)%Q ->
        let params := Scenario.params_with (fin e) in
        Params.atr_mult params = fin 1
        /\ CONTRACT_TICK_VALUE = fin 10
        /\ map (fun r : Row => (signal r, open r, atr r, low r))
               (generate_signals Scenario.stop_bars params)
           = [(0%Z, fin 100, fin 1, num 99.5);
              (1%Z, fin 100, fin 1, fin 100);
              (0%Z, num 100.5, num (49 # 30), fin 98)]
        /\ run_backtest Scenario.stop_bars params
           = Ok {| ledger :=
                     [ {| opened := {| side := LONG; entry_price := fin 100;
                                       stop := fin 99; tp := fin 103;
                                       qty := 1; entry_time := 54000 |};
                          exit_price := fin 99; exit_time := 54060;
                          pnl := fin (-10); reason := "stop" |} ];
                   final_equity := Params.initial_equity params - fin 10;
                   metrics := {| total_pnl := fin (-10); win_rate := fin 0;
                                 profit_factor := fin 0 |} |}).
Proof.
  split.
  - intros params st prev row p Hp Hs.
    rewrite (step_held params st prev row p Hp).
    unfold first_exit. rewrite Hs.
    unfold close_position. cbn [trades equity].
    rewrite reset_daily_trades, reset_daily_equity.
    eexists. split; [reflexivity|]. cbn [opened reason exit_price pnl].
    unfold realized_pnl. destruct (side p); repeat split.
  - intros e He params. split; [reflexivity|]. split; [reflexivity|].
    split.
    + unfold params. rewrite stop_bars_rows. vm_compute. reflexivity.
    + apply (stop_bars_run e He).
Qed.

(** The general part at bar 3 of the run, the run itself from an initial
    equity of 100000. *)
Lemma stop_exit_at_stop_price_witness :
  (position Scenario.after_entry = Some Scenario.held
   /\ stop_hit Scenario.held (Scenario.row_at Scenario.stop_bars 2) = true
   /\ exists t,
        trades (step Scenario.params1 Scenario.after_entry
                     (Scenario.row_at Scenario.stop_bars 1)
                     (Scenario.row_at Scenario.stop_bars 2))
        = trades Scenario.after_entry ++ [t]
        /\ exit_price t = fin 99)
  /\ ((0 < 100000)%Q
      /\ run_backtest Scenario.stop_bars Scenario.params1
         = Ok {| ledger := [Scenario.closed (fin 99) (fin (-10)) "stop"];
                 final_equity := fin 99990;
                 metrics := {| total_pnl := fin (-10); win_rate := fin 0;
                               profit_factor := fin 0 |} |}).
Proof.
  assert (Hp : position Scenario.after_entry = Some Scenario.held)
    by reflexivity.
  assert (Hs : stop_hit Scenario.held (Scenario.row_at Scenario.stop_bars 2)
               = true) by (vm_compute; reflexivity).
  assert (He : (0 < 100000)%Q) by reflexivity.
  split.
  - split; [exact Hp|]. split; [exact Hs|].
    destruct (proj1 stop_exit_at_stop_price Scenario.params1
                    Scenario.after_entry
                    (Scenario.row_at Scenario.stop_bars 1)
                    (Scenario.row_at Scenario.stop_bars 2)
                    Scenario.held Hp Hs)
      as (t & Ht & _ & _ & Hx & _).
    exists t. split; [exact Ht|exact Hx].
  - split; [exact He|].
    exact (proj2 (proj2 (proj2 (proj2 stop_exit_at_stop_price 100000%Q He)))).
Defined.

(* ================================================================== *)
(** ** Entry and exit bars *)

Lemma first_exit_rule (p : Position) (prev row : Row) (why : string)
  (px : float) :
  first_exit p prev row = Some (why, px) -> In why exit_reasons.
Proof.
  unfold first_exit, exit_reasons.
  destruct (stop_hit p row); [intros [= <- _]; simpl; tauto|].
  destruct (target_hit p row); [intros [= <- _]; simpl; tauto|].
  destruct (technical_exit p row); [intros [= <- _]; simpl; tauto|].
  destruct (session_close prev row); [intros [= <- _]; simpl; tauto|].
  discriminate.
Qed.

Lemma last_cons {A} (a d : A) (l : list A) :
  List.last (a :: l) d = List.last l a.
Proof.
  revert a d. induction l as [|b l IH]; intros a d; [reflexivity|].
  change (List.last (a :: b :: l) d) with (List.last (b :: l) d).
  rewrite (IH b d), (IH b a). reflexivity.
Qed.

Lemma last_map {A B} (f : A -> B) (l : list A) (d : A) :
  List.last (map f l) (f d) = f (List.last l d).
Proof.
  induction l as [|a l IH]; [reflexivity|].
  cbn [map List.last]. destruct l; [reflexivity|]. exact IH.
Qed.

(** A bar keeps the invariant: the held position was entered on this bar
    or before, and every trade so far was closed after its entry bar. *)
Lemma step_entered_by (params : Params.t) (st : State) (prev row : Row) :
  (name prev < name row)%Z ->
  entered_by (name prev) st ->
  Forall closed_later (trades st) ->
  entered_by (name row) (step params st prev row)
  /\ Forall closed_later (trades (step params st prev row)).
Proof.
  intros Hlt He Ht. unfold entered_by in *.
  destruct (position st) as [p|] eqn:Hp.
  - rewrite (step_held params st prev row p Hp).
    destruct (first_exit p prev row) as [[why px]|] eqn:Hx.
    + unfold close_position. cbn [position trades]. split; [exact I|].
      rewrite reset_daily_trades. apply Forall_app. split; [assumption|].
      constructor; [|constructor]. split.
      * cbn. lia.
      * cbn [reason]. eapply first_exit_rule. eassumption.
    + rewrite reset_daily_position, reset_daily_trades, Hp.
      split; [lia|assumption].
  - rewrite (step_idle params st prev row Hp).
    rewrite entries_trades, reset_daily_trades. split; [|assumption].
    match goal with
    | |- context [entries ?q ?s ?c ?r] =>
        destruct (entries_position q s c r) as [E|(_ & _ & p & E & Et & _)]
    end.
    + rewrite E, reset_daily_position, Hp. exact I.
    + rewrite E, Et. lia.
Qed.

Lemma loop_entered_by (params : Params.t) (rest : list Row) :
  forall (st : State) (prev : Row),
    Sorted Z.lt (map (fun r : Row => name r) (prev :: rest)) ->
    entered_by (name prev) st ->
    Forall closed_later (trades st) ->
    entered_by (name (List.last rest prev)) (loop params st prev rest)
    /\ Forall closed_later (trades (loop params st prev rest)).
Proof.
  induction rest as [|row rest IH]; intros st prev Hs He Ht.
  - split; assumption.
  - cbn [map] in Hs. apply Sorted_inv in Hs. destruct Hs as [Hs Hd].
    apply HdRel_inv in Hd.
    destruct (step_entered_by params st prev row Hd He Ht) as [He' Ht'].
    destruct (IH (step params st prev row) row Hs He' Ht') as [He2 Ht2].
    cbn [loop]. split; [|assumption].
    rewrite last_cons. assumption.
Qed.

(** C9. With strictly increasing timestamps, every trade that the stop,
    target, technical-exit or session-close rule closes has its exit
    timestamp strictly after its entry timestamp; a trade whose exit shares
    the timestamp of its entry is the forced close at the end of the data,
    on the final bar. *)
Theorem exit_rules_close_after_entry_bar (df : DataFrame)
  (params : Params.t) (st : State) :
  Sorted Z.lt (map name df) ->
  simulate (generate_signals df params) params = Ok st ->
  Forall (fun t : Trade =>
            (In (reason t) exit_reasons -> (entry_time t < exit_time t)%Z)
            /\ (entry_time t <= exit_time t)%Z
            /\ (entry_time t = exit_time t ->
                reason t = "end_of_data"%string
                /\ exit_time t = List.last (map name df) 0%Z))
         (trades st).
Proof.
  intros Hs H.
  pose proof (generate_signals_bars df params) as Hb.
  assert (Hn : map (fun r : Row => name r) (generate_signals df params)
               = map name df).
  { rewrite <- Hb at 2. rewrite map_map. reflexivity. }
  destruct (generate_signals df params) as [|first rest]; [discriminate|].
  unfold simulate in H. rewrite last_cons in H. injection H as <-.
  rewrite <- Hn in Hs.
  set (st0 := {| equity := Params.initial_equity params;
                 daily_start := date (name first);
                 daily_pnl := fin 0; position := None; trades := [] |}).
  destruct (loop_entered_by params rest st0 first Hs I (Forall_nil _))
    as [He Ht].
  unfold end_of_data, entered_by in *.
  assert (Hold : Forall (fun t : Trade =>
            (In (reason t) exit_reasons -> (entry_time t < exit_time t)%Z)
            /\ (entry_time t <= exit_time t)%Z
            /\ (entry_time t = exit_time t ->
                reason t = "end_of_data"%string
                /\ exit_time t = List.last (map name df) 0%Z))
         (trades (loop params st0 first rest))).
  { eapply Forall_impl; [|exact Ht].
    intros t [Hlt _]. repeat split; lia. }
  destruct (position (loop params st0 first rest)) as [p|]; [|assumption].
  cbn [trades]. apply Forall_app. split; [assumption|].
  constructor; [|constructor]. cbn [reason exit_time opened].
  split; [|split].
  - unfold exit_reasons. cbn.
    intros [E|[E|[E|[E|[]]]]]; discriminate.
  - assumption.
  - intros _. split; [reflexivity|].
    rewrite <- Hn. cbn [map]. rewrite last_cons.
    symmetry. apply (last_map (fun r : Row => name r) rest first).
Qed.

(* ================================================================== *)
(** ** VWAP *)

Lemma map2_map {A B C} (f : A -> B) (g : A -> C) (h : B -> C -> float)
  (l : list A) :
  map2 h (map f l) (map g l) = map (fun a => h (f a) (g a)) l.
Proof.
  induction l as [|a l IH]; [reflexivity|]. cbn. rewrite IH. reflexivity.
Qed.

Lemma map2_nth (h : float -> float -> float) (xs ys : Series) (i : nat) :
  (i < List.length xs)%nat ->
  (i < List.length ys)%nat ->
  nth i (map2 h xs ys) nan = h (nth i xs nan) (nth i ys nan).
Proof.
  revert ys i. induction xs as [|x xs IH]; intros ys i Hx Hy;
    [cbn in Hx; lia|].
  destruct ys as [|y ys]; [cbn in Hy; lia|].
  destruct i as [|i]; [reflexivity|].
  cbn in Hx, Hy. cbn. apply IH; lia.
Qed.

Lemma cumsum_from_length (s : Series) (acc : float) :
  List.length (cumsum_from acc s) = List.length s.
Proof.
  revert acc. induction s as [|x s IH]; intros acc; [reflexivity|].
  cbn. destruct (is_nan x); cbn; rewrite IH; reflexivity.
Qed.

(** On a series without gaps the running sum at a position is the sum of
    the entries from the first one up to that position. *)
Lemma cumsum_from_nth (s : Series) :
  Forall (fun x => is_nan x = false) s ->
  forall (acc : float) (i : nat),
    (i < List.length s)%nat ->
    nth i (cumsum_from acc s) nan = fold_left add (firstn (S i) s) acc.
Proof.
  induction 1 as [|x s Hx Hs IH]; intros acc i Hi; [cbn in Hi; lia|].
  cbn [cumsum_from]. rewrite Hx.
  destruct i as [|i]; [reflexivity|].
  cbn in Hi. cbn [nth firstn fold_left]. apply IH. lia.
Qed.

Lemma sum_no_gap (s : Series) :
  Forall (fun x => is_nan x = false) s ->
  sum s = fold_left add s (fin 0).
Proof.
  intros H. unfold sum, dropna. rewrite forallb_filter_id; [reflexivity|].
  apply forallb_forall. rewrite Forall_forall in H.
  intros x Hx. rewrite (H x Hx). reflexivity.
Qed.

Lemma Forall_firstn_no_gap (n : nat) (s : Series) :
  Forall (fun x => is_nan x = false) s ->
  Forall (fun x => is_nan x = false) (firstn n s).
Proof.
  intros H. revert n. induction H as [|x s Hx Hs IH]; intros n.
  - destruct n; constructor.
  - destruct n; constructor; [assumption|apply IH].
Qed.

Lemma ffill_from_length (s : Series) (last_valid : float) :
  List.length (ffill_from last_valid s) = List.length s.
Proof.
  revert last_valid. induction s as [|x s IH]; intros v; [reflexivity|].
  cbn. destruct (is_nan x); cbn; rewrite IH; reflexivity.
Qed.

(** Forward fill, position by position: a defined entry is kept, an
    undefined one takes the filled value of the position before it. *)
Lemma ffill_from_nth (s : Series) :
  forall (last_valid : float) (i : nat),
    (i < List.length s)%nat ->
    nth i (ffill_from last_valid s) nan =
    if is_nan (nth i s nan)
    then match i with
         | O => last_valid
         | S k => nth k (ffill_from last_valid s) nan
         end
    else nth i s nan.
Proof.
  induction s as [|x s IH]; intros v i Hi; [cbn in Hi; lia|].
  cbn in Hi. destruct i as [|i].
  - cbn. destruct (is_nan x) eqn:Hx; cbn; [reflexivity|].
    reflexivity.
  - assert (Hi' : (i < List.length s)%nat) by lia.
    cbn [ffill_from]. destruct (is_nan x) eqn:Hx.
    + cbn [nth]. rewrite (IH v i Hi').
      destruct (is_nan (nth i s nan)); [|reflexivity].
      destruct i as [|k]; reflexivity.
    + cbn [nth]. rewrite (IH x i Hi').
      destruct (is_nan (nth i s nan)); [|reflexivity].
      destruct i as [|k]; reflexivity.
Qed.

(** Once an entry is defined, every later filled entry is defined. *)
Lemma ffill_from_defined (s : Series) (last_valid : float) (j i : nat) :
  (j <= i)%nat ->
  (i < List.length s)%nat ->
  is_nan (nth j s nan) = false ->
  is_nan (nth i (ffill_from last_valid s) nan) = false.
Proof.
  intros Hji Hi Hj. induction i as [|i IH].
  - assert (j = 0)%nat by lia. subst j.
    rewrite ffill_from_nth by assumption. rewrite Hj. assumption.
  - rewrite ffill_from_nth by assumption.
    destruct (is_nan (nth (S i) s nan)) eqn:Hn; [|assumption].
    apply IH; [|lia].
    destruct (Nat.eq_dec j (S i)) as [->|Hne]; [congruence|lia].
Qed.

Lemma typical_price_fin (b : Bar) :
  finite_bar b -> is_fin (Utils.typical_price b) = true.
Proof.
  intros (_ & Hh & Hl & Hc & _). unfold Utils.typical_price.
  destruct (high b); try discriminate.
  destruct (low b); try discriminate.
  destruct (close b); try discriminate.
  reflexivity.
Qed.

Lemma finite_price_volume (df : DataFrame) :
  Forall finite_bar df ->
  Forall (fun x => is_nan x = false)
         (map (fun b => Utils.typical_price b * volume b) df)
  /\ Forall (fun x => is_nan x = false) (map volume df).
Proof.
  intros H. split; apply Forall_map; eapply Forall_impl; try exact H;
    intros b Hb; cbn beta.
  - pose proof (typical_price_fin b Hb) as Ht.
    destruct Hb as (_ & _ & _ & _ & Hv).
    destruct (Utils.typical_price b); try discriminate.
    destruct (volume b); try discriminate. reflexivity.
  - destruct Hb as (_ & _ & _ & _ & Hv).
    destruct (volume b); try discriminate. reflexivity.
Qed.

(** The column that [vwap] forward-fills holds, at every position, the
    ratio of the two sums taken from the first bar. *)
Lemma vwap_ratio_column (df : DataFrame) (i : nat) :
  Forall finite_bar df ->
  (i < List.length df)%nat ->
  nth i (map2 div
           (cumsum (map2 mul (map Utils.typical_price df) (map volume df)))
           (cumsum (map volume df))) nan
  = vwap_ratio df i.
Proof.
  intros Hf Hi. destruct (finite_price_volume df Hf) as [Hp Hv].
  rewrite map2_map. unfold cumsum.
  rewrite map2_nth
    by (rewrite cumsum_from_length, length_map; assumption).
  rewrite !cumsum_from_nth by (rewrite ?length_map; assumption).
  unfold vwap_ratio.
  rewrite !sum_no_gap by (apply Forall_firstn_no_gap; assumption).
  reflexivity.
Qed.

Lemma ffill_from_leading (s : Series) (last_valid : float) (i : nat) :
  is_nan last_valid = true ->
  (i < List.length s)%nat ->
  (forall j, (j <= i)%nat -> is_nan (nth j s nan) = true) ->
  is_nan (nth i (ffill_from last_valid s) nan) = true.
Proof.
  intros Hv. induction i as [|i IH]; intros Hi Hu.
  - rewrite ffill_from_nth by assumption.
    rewrite (Hu 0%nat) by lia. assumption.
  - rewrite ffill_from_nth by assumption.
    rewrite (Hu (S i)) by lia. apply IH; [lia|].
    intros j Hj. apply Hu. lia.
Qed.

(** C8, as the code has it. For bars with finite fields, VWAP is taken
    over the whole frame from its first bar, with typical price
    (high + low + close) / 3: where the ratio of cumulative typical price x
    volume to cumulative volume is defined, VWAP is that ratio; where it is
    undefined, VWAP is the VWAP of the bar before (undefined on the first
    bar); so from the first bar with a defined ratio on, VWAP is defined,
    and on the bars before it, where every ratio so far is undefined, VWAP
    stays undefined. *)
Theorem vwap_cumulative_from_first_bar (df : DataFrame) (i : nat) :
  Forall finite_bar df ->
  (i < List.length df)%nat ->
  List.length (Utils.vwap df) = List.length df
  /\ (is_nan (vwap_ratio df i) = false ->
      nth i (Utils.vwap df) nan = vwap_ratio df i)
  /\ (is_nan (vwap_ratio df i) = true ->
      nth i (Utils.vwap df) nan
      = match i with
        | O => nan
        | S k => nth k (Utils.vwap df) nan
        end)
  /\ (forall j : nat,
        (j <= i)%nat ->
        is_nan (vwap_ratio df j) = false ->
        is_nan (nth i (Utils.vwap df) nan) = false)
  /\ ((forall j : nat, (j <= i)%nat -> is_nan (vwap_ratio df j) = true) ->
      is_nan (nth i (Utils.vwap df) nan) = true).
Proof.
  intros Hf Hi. unfold Utils.vwap, ffill.
  set (ratio := map2 div _ _).
  assert (Hr : forall k, (k < List.length df)%nat ->
                         nth k ratio nan = vwap_ratio df k)
    by (intros k Hk; apply vwap_ratio_column; assumption).
  assert (Hlen : List.length ratio = List.length df).
  { unfold ratio. rewrite map2_map. unfold cumsum.
    clear. generalize (fin 0) at 1. generalize (fin 0).
    induction df as [|b df IH]; intros a c; [reflexivity|].
    cbn [map cumsum_from].
    destruct (is_nan (Utils.typical_price b * volume b)),
             (is_nan (volume b)); cbn; rewrite IH; reflexivity. }
  split; [rewrite ffill_from_length; assumption|].
  split; [|split; [|split]].
  - intros Hd. rewrite ffill_from_nth by lia. rewrite (Hr i Hi), Hd.
    reflexivity.
  - intros Hu. rewrite ffill_from_nth by lia. rewrite (Hr i Hi), Hu.
    reflexivity.
  - intros j Hj Hd. apply ffill_from_defined with (j := j); try lia.
    rewrite Hr by lia. assumption.
  - intros Hu. apply ffill_from_leading; [reflexivity|lia|].
    intros j Hj. rewrite Hr by lia. apply Hu. assumption.
Qed.

(** The third bar of [corrected_volume_bars]: its ratio is 0 / 0, and
    its VWAP is the VWAP of the second bar. *)
Lemma vwap_cumulative_from_first_bar_witness :
  Forall finite_bar Scenario.corrected_volume_bars
  /\ (2 < List.length Scenario.corrected_volume_bars)%nat
  /\ is_nan (vwap_ratio Scenario.corrected_volume_bars 2) = true
  /\ List.length (Utils.vwap Scenario.corrected_volume_bars)
     = List.length Scenario.corrected_volume_bars
  /\ (is_nan (vwap_ratio Scenario.corrected_volume_bars 2) = false ->
      nth 2 (Utils.vwap Scenario.corrected_volume_bars) nan
      = vwap_ratio Scenario.corrected_volume_bars 2)
  /\ (is_nan (vwap_ratio Scenario.corrected_volume_bars 2) = true ->
      nth 2 (Utils.vwap Scenario.corrected_volume_bars) nan
      = nth 1 (Utils.vwap Scenario.corrected_volume_bars) nan)
  /\ (forall j : nat,
        (j <= 2)%nat ->
        is_nan (vwap_ratio Scenario.corrected_volume_bars j) = false ->
        is_nan (nth 2 (Utils.vwap Scenario.corrected_volume_bars) nan)
        = false)
  /\ ((forall j : nat,
         (j <= 2)%nat ->
         is_nan (vwap_ratio Scenario.corrected_volume_bars j) = true) ->
      is_nan (nth 2 (Utils.vwap Scenario.corrected_volume_bars) nan) = true).
Proof.
  assert (Hf : Forall finite_bar Scenario.corrected_volume_bars)
    by (repeat constructor).
  assert (Hi : (2 < List.length Scenario.corrected_volume_bars)%nat)
    by (cbn; lia).
  split; [exact Hf|]. split; [exact Hi|]. split; [reflexivity|].
  exact (vwap_cumulative_from_first_bar Scenario.corrected_volume_bars 2
           Hf Hi).
Defined.

Lemma corrected_volume_bars_vwap :
  Utils.vwap Scenario.corrected_volume_bars = [nan; fin 11; fin 11; fin 12]
  /\ map (vwap_ratio Scenario.corrected_volume_bars) (seq 0 4)
     = [nan; fin 11; nan; fin 12].
Proof. vm_compute. split; reflexivity. Qed.

(** C8, as stated, fails: on [thin_bars] the ratio is undefined on the
    first two bars and first defined on the third (12); the VWAP of the
    first two bars is undefined, not 12. *)
Lemma vwap_leading_gap_counterexample :
  Forall finite_bar Scenario.thin_bars
  /\ map (vwap_ratio Scenario.thin_bars) (seq 0 3) = [nan; nan; fin 12]
  /\ firstn 3 (Utils.vwap Scenario.thin_bars) = [nan; nan; fin 12]
  /\ ~ leading_gap_filled Scenario.thin_bars.
Proof.
  split; [repeat constructor|]. split; [vm_compute; reflexivity|].
  split; [vm_compute; reflexivity|].
  intros H. specialize (H 0%nat 2%nat).
  assert (E : nth 0 (Utils.vwap Scenario.thin_bars) nan
              = vwap_ratio Scenario.thin_bars 2).
  { apply H; [lia|cbn; lia| |vm_compute; reflexivity].
    intros k Hk. destruct k as [|[|k]]; [vm_compute; reflexivity..|lia]. }
  vm_compute in E. discriminate.
Qed.

Lemma thin_bars_vwap :
  Utils.vwap Scenario.thin_bars = [nan; nan; fin 12; fin 12; fin 14]
  /\ map (vwap_ratio Scenario.thin_bars) (seq 0 5)
     = [nan; nan; fin 12; fin 12; fin 14].
Proof. vm_compute. split; reflexivity. Qed.

Lemma scenario_times_sorted :
  Sorted Z.lt [53940; 54000; 54060]%Z.
Proof. repeat constructor. Qed.

(** The run over [late_bars]: bar 3, the final bar, opens a long that the
    end of the data closes on the same bar. *)
Lemma exit_rules_close_after_entry_bar_witness :
  Sorted Z.lt (map name Scenario.late_bars)
  /\ simulate (generate_signals Scenario.late_bars Scenario.params1)
              Scenario.params1 = Ok Scenario.late_run
  /\ Forall (fun t : Trade =>
               (In (reason t) exit_reasons ->
                (entry_time t < exit_time t)%Z)
               /\ (entry_time t <= exit_time t)%Z
               /\ (entry_time t = exit_time t ->
                   reason t = "end_of_data"%string
                   /\ exit_time t
                      = List.last (map name Scenario.late_bars) 0%Z))
            (trades Scenario.late_run).
Proof.
  assert (Hs : Sorted Z.lt (map name Scenario.late_bars))
    by exact scenario_times_sorted.
  assert (H : simulate (generate_signals Scenario.late_bars Scenario.params1)
                       Scenario.params1 = Ok Scenario.late_run)
    by (vm_compute; reflexivity).
  split; [exact Hs|]. split; [exact H|].
  exact (exit_rules_close_after_entry_bar Scenario.late_bars
           Scenario.params1 Scenario.late_run Hs H).
Defined.

(** The run over [stop_bars]: entry on bar 2, stop on bar 3. *)
Lemma stop_run_closes_after_entry :
  simulate (generate_signals Scenario.stop_bars Scenario.params1)
           Scenario.params1 = Ok Scenario.stop_run
  /\ Forall closed_later (trades Scenario.stop_run).
Proof.
  split; [vm_compute; reflexivity|].
  repeat constructor.
Qed.

(* ================================================================== *)
(** ** EMA on a series of finite prices *)

(** One turn of the [ewm] loop on finite values is one step of the
    recurrence of §4.1. *)
Lemma ewm_step_fin (a w p : Q) :
  exists v,
    (if neb (fin w) (fin p)
     then (fin 1 * (fin 1 - fin a) * fin w + fin a * fin p)
          / (fin 1 * (fin 1 - fin a) + fin a)
     else fin w) = fin v
    /\ (v == p * a + w * (1 - a))%Q.
Proof.
  unfold neb, eqb, cmp. destruct (w ?= p)%Q eqn:E.
  - apply Qeq_alt in E. exists w. split; [reflexivity|]. rewrite E. ring.
  - cbn [negb add sub mul neg div].
    set (den := Qred (Qred (1 * Qred (1 + Qred (- a))) + a)).
    assert (Hden : (den == 1)%Q)
      by (unfold den; rewrite !Qred_correct; ring).
    assert (Hc : (den ?= 0)%Q = Gt)
      by (apply Qgt_alt; rewrite Hden; reflexivity).
    rewrite Hc. eexists. split; [reflexivity|].
    rewrite !Qred_correct. fold den. rewrite Hden. field.
  - cbn [negb add sub mul neg div].
    set (den := Qred (Qred (1 * Qred (1 + Qred (- a))) + a)).
    assert (Hden : (den == 1)%Q)
      by (unfold den; rewrite !Qred_correct; ring).
    assert (Hc : (den ?= 0)%Q = Gt)
      by (apply Qgt_alt; rewrite Hden; reflexivity).
    rewrite Hc. eexists. split; [reflexivity|].
    rewrite !Qred_correct. fold den. rewrite Hden. field.
Qed.

(** A series without infinite entries goes into the window operations
    as it is. *)
Lemma prep_values_id (s : Series) :
  Forall (fun x => x <> pinf /\ x <> ninf) s -> prep_values s = s.
Proof.
  induction 1 as [|x s [Hp Hn] Hs IH]; [reflexivity|].
  cbn [prep_values map]. fold (prep_values s). rewrite IH.
  destruct x; congruence.
Qed.

Lemma prep_values_fin (prices : list Q) :
  prep_values (map fin prices) = map fin prices.
Proof.
  apply prep_values_id, Forall_map, Forall_forall.
  intros q _. split; discriminate.
Qed.

Lemma ewm_from_fin (a a' : Q) (prices : list Q) :
  (a' == a)%Q ->
  forall w w' : Q,
    (w' == w)%Q ->
    exists values,
      ewm_from (fin a') (fin w') (fin 1) (map fin prices) = map fin values
      /\ Forall2 Qeq values (ema_rec a w prices).
Proof.
  intros Ha. induction prices as [|p prices IH]; intros w w' Hw.
  - exists []. split; constructor.
  - cbn [map ewm_from is_nan negb].
    destruct (ewm_step_fin a' w' p) as (v & -> & Hv).
    destruct (IH (p * a + w * (1 - a))%Q v) as (values & E & Hvalues).
    { rewrite Hv, Ha, Hw. reflexivity. }
    exists (v :: values). split.
    + cbn [map]. rewrite E. reflexivity.
    + cbn [ema_rec]. constructor; [|assumption].
      rewrite Hv, Ha, Hw. reflexivity.
Qed.

(** [ema] on finite prices is the seeded recurrence of §4.1 with
    alpha = 2 / (span + 1), value for value. *)
Lemma ema_is_seeded_recurrence (span : positive) (prices : list Q) :
  exists values,
    Utils.ema (map fin prices) span = map fin values
    /\ Forall2 Qeq values
               (ema_spec (2 / (inject_Z (Z.pos span) + 1)) prices).
Proof.
  unfold Utils.ema, Utils.alpha_of_span, num, ewm_mean.
  rewrite prep_values_fin.
  destruct prices as [|p0 prices].
  - exists []. split; constructor.
  - cbn [map ema_spec].
    destruct (ewm_from_fin (2 / (inject_Z (Z.pos span) + 1))
                           (Qred (2 / (inject_Z (Z.pos span) + 1)))
                           prices (Qred_correct _) p0 p0 (Qeq_refl _))
      as (values & E & Hvalues).
    exists (p0 :: values). split.
    + cbn [map]. rewrite E. reflexivity.
    + constructor; [reflexivity|assumption].
Qed.

(* ================================================================== *)
(** ** Summary of a ledger with trades *)

Lemma le_zero_cases (x : float) :
  (x <=? fin 0) = true ->
  x = ninf \/ exists a, x = fin a /\ (a <= 0)%Q.
Proof.
  destruct x as [| | |a]; try discriminate; [left; reflexivity|].
  unfold le, cmp. intros H. right. exists a. split; [reflexivity|].
  destruct (a ?= 0)%Q eqn:E; try discriminate.
  - apply Qeq_alt in E. rewrite E. apply Qle_refl.
  - apply Qlt_alt in E. apply Qlt_le_weak. assumption.
Qed.

Lemma le_zero_fin (a : Q) : (a <= 0)%Q -> (fin a <=? fin 0) = true.
Proof.
  intros H. unfold le, cmp. destruct (a ?= 0)%Q eqn:E; try reflexivity.
  apply Qgt_alt in E. exfalso. apply (Qlt_not_le _ _ E). assumption.
Qed.

Lemma add_le_zero (x y : float) :
  (x <=? fin 0) = true -> (y <=? fin 0) = true -> (x + y <=? fin 0) = true.
Proof.
  intros Hx Hy.
  destruct (le_zero_cases x Hx) as [->|(a & -> & Ha)];
    destruct (le_zero_cases y Hy) as [->|(b & -> & Hb)];
    try reflexivity.
  cbn [add]. apply le_zero_fin. rewrite Qred_correct.
  setoid_replace 0%Q with (0 + 0)%Q by reflexivity.
  apply Qplus_le_compat; assumption.
Qed.

Lemma fold_add_le_zero (s : Series) :
  Forall (fun x => (x <=? fin 0) = true) s ->
  forall acc, (acc <=? fin 0) = true ->
              (fold_left add s acc <=? fin 0) = true.
Proof.
  induction 1 as [|x s Hx Hs IH]; intros acc Hacc; [assumption|].
  cbn [fold_left]. apply IH. apply add_le_zero; assumption.
Qed.

Lemma neg_is_abs (x : float) : (x <=? fin 0) = true -> - x = abs x.
Proof.
  intros H. destruct (le_zero_cases x H) as [->|(a & -> & Ha)];
    [reflexivity|].
  cbn [neg abs]. f_equal. apply Qred_complete.
  symmetry. apply Qabs_neg. assumption.
Qed.

(** The divisor of the profit factor is the absolute value of the summed
    P&L of the trades selected as losses. *)
Lemma loss_divisor_is_abs (trades_df : list Trade) :
  - sum (map pnl (losses_of trades_df))
  = abs (sum (map pnl (losses_of trades_df))).
Proof.
  apply neg_is_abs.
  assert (H : Forall (fun x => (x <=? fin 0) = true)
                     (map pnl (losses_of trades_df))).
  { apply Forall_map. apply Forall_forall. intros t Ht.
    apply filter_In in Ht. apply Ht. }
  unfold sum. apply fold_add_le_zero; [|reflexivity].
  unfold dropna. apply Forall_forall. intros x Hx.
  apply filter_In in Hx. rewrite Forall_forall in H. apply H, Hx.
Qed.

(** With at least one trade the summary is computed: win rate is
    count(P&L > 0) / total trades; profit factor is the explicit
    undefined value when no trade has P&L <= 0, and when the P&L of the
    trades at or below zero sums to less than zero it is the quotient of
    §4.5, sum(P&L > 0) / |sum(P&L <= 0)|. *)
Theorem summary_of_trades (t : Trade) (l : list Trade) :
  exists m,
    summary (t :: l) = Ok m
    /\ win_rate m = win_rate_spec (t :: l)
    /\ (losses (t :: l) = [] -> profit_factor m = nan)
    /\ ((sum (losses (t :: l)) <? fin 0) = true ->
        profit_factor m = profit_factor_spec (t :: l)).
Proof.
  destruct (summary_nonempty t l) as (m & Hm & Hw & Hp).
  exists m. split; [assumption|]. split; [assumption|].
  pose proof (losses_of_losses (t :: l)) as Hl.
  pose proof (loss_divisor_is_abs (t :: l)) as Ha.
  rewrite Hp. split.
  - intros E. rewrite E in Hl.
    destruct (losses_of (t :: l)); [reflexivity|discriminate].
  - intros Hneg. unfold profit_factor_spec.
    rewrite <- wins_of_gains, <- Hl, <- Ha.
    destruct (losses_of (t :: l)) as [|x r] eqn:E; [|reflexivity].
    rewrite <- Hl in Hneg. discriminate.
Qed.

(** The ledger of the run over [stop_bars], one trade at -10: no gain, a
    loss sum of -10, profit factor 0 / 10. *)
Lemma summary_of_trades_witness :
  (sum (losses (trades Scenario.stop_run)) <? fin 0) = true
  /\ exists m,
       summary (trades Scenario.stop_run) = Ok m
       /\ win_rate m = win_rate_spec (trades Scenario.stop_run)
       /\ (losses (trades Scenario.stop_run) = [] -> profit_factor m = nan)
       /\ ((sum (losses (trades Scenario.stop_run)) <? fin 0) = true ->
           profit_factor m = profit_factor_spec (trades Scenario.stop_run)).
Proof.
  split; [reflexivity|].
  exact (summary_of_trades (Scenario.closed (fin 99) (fin (-10)) "stop") []).
Defined.

(** A ledger of one break-even trade: the trade is selected as a loss
    (P&L <= 0), and the profit factor is 0 / 0. *)
Lemma break_even_ledger :
  let t := Scenario.closed (fin 100) (fin 0) "technical_exit" in
  losses_of [t] = [t]
  /\ exists m, summary [t] = Ok m
               /\ win_rate m = fin 0
               /\ profit_factor m = nan.
Proof.
  split; [reflexivity|]. eexists. split; [reflexivity|].
  split; reflexivity.
Qed.

(* ================================================================== *)
(** ** The loop as a whole *)

Lemma entries_equity (params : Params.t) (st : State) (can_open : bool)
  (row : Row) :
  equity (entries params st can_open row) = equity st.
Proof.
  unfold entries.
  destruct (position st), can_open; try reflexivity.
  destruct (signal row =? 1)%Z; [reflexivity|].
  destruct (signal row =? -1)%Z; reflexivity.
Qed.

(** What the entry branch leaves in [position] when it starts idle. *)
Lemma entries_cases (params : Params.t) (st : State) (can_open : bool)
  (row : Row) :
  position st = None ->
  position (entries params st can_open row) = None
  \/ (can_open = true
      /\ exists p, entered_on params row p
                   /\ position (entries params st can_open row) = Some p).
Proof.
  intros Hp. unfold entries. rewrite Hp.
  destruct can_open; [|left; assumption].
  destruct (signal row =? 1)%Z eqn:H1.
  - right. split; [reflexivity|]. apply Z.eqb_eq in H1.
    exists (long_entry params row). split; [left; split; auto|reflexivity].
  - destruct (signal row =? -1)%Z eqn:H2; [|left; assumption].
    right. split; [reflexivity|]. apply Z.eqb_eq in H2.
    exists (short_entry params row). split; [right; split; auto|reflexivity].
Qed.

Lemma fold_add_snoc (l : Series) (x init : float) :
  fold_left add (l ++ [x]) init = fold_left add l init + x.
Proof. rewrite fold_left_app. reflexivity. Qed.

Lemma step_equity (params : Params.t) (st : State) (prev row : Row)
  (init : float) :
  equity st = fold_left add (map pnl (trades st)) init ->
  equity (step params st prev row)
  = fold_left add (map pnl (trades (step params st prev row))) init.
Proof.
  intros H. destruct (position st) as [p|] eqn:Hp.
  - rewrite (step_held params st prev row p Hp).
    destruct (first_exit p prev row) as [[why px]|].
    + unfold close_position. cbn [equity trades].
      rewrite reset_daily_equity, reset_daily_trades, map_app.
      cbn [map pnl]. rewrite fold_add_snoc, H. reflexivity.
    + rewrite reset_daily_equity, reset_daily_trades. assumption.
  - rewrite (step_idle params st prev row Hp).
    rewrite entries_equity, entries_trades.
    rewrite reset_daily_equity, reset_daily_trades. assumption.
Qed.

Lemma loop_equity (params : Params.t) (init : float) (rest : list Row) :
  forall (st : State) (prev : Row),
    equity st = fold_left add (map pnl (trades st)) init ->
    equity (loop params st prev rest)
    = fold_left add (map pnl (trades (loop params st prev rest))) init.
Proof.
  induction rest as [|row rest IH]; intros st prev H; [assumption|].
  cbn [loop]. apply IH. apply step_equity. assumption.
Qed.

(** The final equity is the initial equity with the P&L of every trade of
    the ledger added to it, in ledger order. *)
Theorem equity_is_initial_plus_ledger (rows : list Row)
  (params : Params.t) (st : State) :
  simulate rows params = Ok st ->
  equity st
  = fold_left add (map pnl (trades st)) (Params.initial_equity params).
Proof.
  unfold simulate. destruct rows as [|first rest]; [discriminate|].
  intros [= <-].
  set (st0 := {| equity := Params.initial_equity params |}).
  pose proof (loop_equity params (Params.initial_equity params) rest st0
                first eq_refl) as H.
  unfold end_of_data.
  destruct (position (loop params st0 first rest)) as [p|]; [|assumption].
  cbn [equity trades]. rewrite map_app. cbn [map pnl].
  rewrite fold_add_snoc, H. reflexivity.
Qed.

Lemma equity_is_initial_plus_ledger_witness :
  simulate (generate_signals Scenario.target_bars Scenario.params1)
           Scenario.params1 = Ok Scenario.target_run
  /\ equity Scenario.target_run
     = fold_left add (map pnl (trades Scenario.target_run))
                 (Params.initial_equity Scenario.params1).
Proof.
  assert (H : simulate (generate_signals Scenario.target_bars Scenario.params1)
                       Scenario.params1 = Ok Scenario.target_run)
    by (vm_compute; reflexivity).
  split; [exact H|].
  exact (equity_is_initial_plus_ledger _ _ _ H).
Defined.

(** A bar adds at most one trade, and a trade takes two bars: the one
    that enters and a later one that closes. *)
Lemma step_trade_count (params : Params.t) (st : State) (prev row : Row) :
  (2 * List.length (trades (step params st prev row))
   + held_count (step params st prev row)
   <= 2 * List.length (trades st) + held_count st + 1)%nat.
Proof.
  unfold held_count. destruct (position st) as [p|] eqn:Hp.
  - rewrite (step_held params st prev row p Hp).
    destruct (first_exit p prev row) as [[why px]|].
    + unfold close_position. cbn [trades position].
      rewrite reset_daily_trades, length_app. cbn. lia.
    + rewrite reset_daily_trades, reset_daily_position, Hp. lia.
  - rewrite (step_idle params st prev row Hp).
    rewrite entries_trades, reset_daily_trades.
    destruct (position (entries _ _ _ _)); lia.
Qed.

Lemma loop_trade_count (params : Params.t) (rest : list Row) :
  forall (st : State) (prev : Row),
    (2 * List.length (trades (loop params st prev rest))
     + held_count (loop params st prev rest)
     <= 2 * List.length (trades st) + held_count st + List.length rest)%nat.
Proof.
  induction rest as [|row rest IH]; intros st prev; cbn [loop List.length];
    [lia|].
  pose proof (IH (step params st prev row) row).
  pose proof (step_trade_count params st prev row). lia.
Qed.

(** A frame of n bars yields at most n / 2 trades. *)
Theorem at_most_one_trade_per_two_bars (rows : list Row)
  (params : Params.t) (st : State) :
  simulate rows params = Ok st ->
  (2 * List.length (trades st) <= List.length rows)%nat.
Proof.
  unfold simulate. destruct rows as [|first rest]; [discriminate|].
  intros [= <-].
  set (st0 := {| equity := Params.initial_equity params |}).
  pose proof (loop_trade_count params rest st0 first) as H.
  unfold held_count in H. cbn [trades position st0 List.length] in H.
  unfold end_of_data.
  destruct (position (loop params st0 first rest)) as [p|];
    cbn [trades List.length]; [rewrite length_app; cbn|]; lia.
Qed.

Lemma at_most_one_trade_per_two_bars_witness :
  simulate (generate_signals Scenario.stop_bars Scenario.params1)
           Scenario.params1 = Ok Scenario.stop_run
  /\ (2 * List.length (trades Scenario.stop_run)
      <= List.length (generate_signals Scenario.stop_bars Scenario.params1))%nat.
Proof.
  assert (H : simulate (generate_signals Scenario.stop_bars Scenario.params1)
                       Scenario.params1 = Ok Scenario.stop_run)
    by (vm_compute; reflexivity).
  split; [exact H|].
  exact (at_most_one_trade_per_two_bars _ _ _ H).
Defined.

(** *** Where trades come from *)

Lemma step_provenance (params : Params.t) (all : list Row) (st : State)
  (prev row : Row) :
  In row all ->
  Forall (fun t : Trade => entered_among params all t) (trades st) ->
  (forall p, position st = Some p -> entered_among params all p) ->
  Forall (fun t : Trade => entered_among params all t)
         (trades (step params st prev row))
  /\ (forall p, position (step params st prev row) = Some p ->
                entered_among params all p).
Proof.
  intros Hin Ht Hpos. destruct (position st) as [p|] eqn:Hp.
  - rewrite (step_held params st prev row p Hp).
    destruct (first_exit p prev row) as [[why px]|].
    + unfold close_position. cbn [trades position]. split; [|discriminate].
      rewrite reset_daily_trades. apply Forall_app. split; [assumption|].
      constructor; [|constructor]. cbn [opened]. apply Hpos. reflexivity.
    + rewrite reset_daily_trades, reset_daily_position, Hp.
      split; assumption.
  - rewrite (step_idle params st prev row Hp).
    rewrite entries_trades, reset_daily_trades. split; [assumption|].
    intros q Hq.
    match type of Hq with
    | position (entries ?a ?s ?c ?r) = _ =>
        destruct (entries_cases a s c r) as [E|(_ & p' & He & E)];
          [rewrite reset_daily_position; assumption| |]
    end.
    + rewrite E in Hq. discriminate.
    + rewrite E in Hq. injection Hq as <-. exists row. split; assumption.
Qed.

Lemma loop_provenance (params : Params.t) (all rest : list Row) :
  forall (st : State) (prev : Row),
    incl rest all ->
    Forall (fun t : Trade => entered_among params all t) (trades st) ->
    (forall p, position st = Some p -> entered_among params all p) ->
    Forall (fun t : Trade => entered_among params all t)
           (trades (loop params st prev rest))
    /\ (forall p, position (loop params st prev rest) = Some p ->
                  entered_among params all p).
Proof.
  induction rest as [|row rest IH]; intros st prev Hi Ht Hp;
    [split; assumption|].
  cbn [loop].
  destruct (step_provenance params all st prev row) as [Ht' Hp'];
    try assumption; [apply Hi; left; reflexivity|].
  apply IH; try assumption.
  intros r Hr. apply Hi. right. assumption.
Qed.

(** Every trade of the ledger was entered on a bar after the first one,
    on which the signal was 1 (a long) or -1 (a short), at that bar's open
    and time, with the stop and target computed from that bar's ATR. *)
Theorem trades_come_from_signals (rows : list Row) (params : Params.t)
  (st : State) :
  simulate rows params = Ok st ->
  Forall (fun t : Trade => entered_among params (tl rows) t) (trades st).
Proof.
  unfold simulate. destruct rows as [|first rest]; [discriminate|].
  intros [= <-]. cbn [tl].
  set (st0 := {| equity := Params.initial_equity params |}).
  destruct (loop_provenance params rest rest st0 first (incl_refl _)
              (Forall_nil _)) as [Ht Hp]; [discriminate|].
  unfold end_of_data.
  destruct (position (loop params st0 first rest)) as [p|] eqn:E;
    [|assumption].
  cbn [trades]. apply Forall_app. split; [assumption|].
  constructor; [|constructor]. cbn [opened]. apply Hp. reflexivity.
Qed.

Lemma trades_come_from_signals_witness :
  simulate (generate_signals Scenario.stop_bars Scenario.params1)
           Scenario.params1 = Ok Scenario.stop_run
  /\ Forall (fun t : Trade =>
               entered_among Scenario.params1
                 (tl (generate_signals Scenario.stop_bars Scenario.params1))
                 t)
            (trades Scenario.stop_run).
Proof.
  assert (H : simulate (generate_signals Scenario.stop_bars Scenario.params1)
                       Scenario.params1 = Ok Scenario.stop_run)
    by (vm_compute; reflexivity).
  split; [exact H|].
  exact (trades_come_from_signals _ _ _ H).
Defined.

(** Without a signal after the first bar the loop never holds a position
    and the ledger stays empty. *)
Lemma no_signal_no_trade (rows : list Row) (params : Params.t) (st : State) :
  Forall (fun r : Row => signal r = 0%Z) (tl rows) ->
  simulate rows params = Ok st ->
  trades st = [].
Proof.
  intros Hz H.
  unfold simulate in H. destruct rows as [|first rest]; [discriminate|].
  injection H as <-. cbn [tl] in Hz.
  set (st0 := {| equity := Params.initial_equity params |}).
  destruct (loop_provenance params rest rest st0 first (incl_refl _)
              (Forall_nil _)) as [Ht Hp]; [discriminate|].
  assert (Hnone : forall p, ~ entered_among params rest p).
  { intros p (r & Hr & He). rewrite Forall_forall in Hz.
    specialize (Hz r Hr). destruct He as [[E _]|[E _]]; lia. }
  unfold end_of_data.
  destruct (position (loop params st0 first rest)) as [p|] eqn:E.
  - exfalso. apply (Hnone p). apply Hp. reflexivity.
  - destruct (trades (loop params st0 first rest)) as [|t l];
      [reflexivity|].
    exfalso. inversion Ht as [|? ? Hx]; subst. apply (Hnone t). assumption.
Qed.

(** *** The forced close *)

Lemma loop_exit_reasons (params : Params.t) (rest : list Row) :
  forall (st : State) (prev : Row),
    Forall (fun t => In (reason t) exit_reasons) (trades st) ->
    Forall (fun t => In (reason t) exit_reasons)
           (trades (loop params st prev rest)).
Proof.
  induction rest as [|row rest IH]; intros st prev H; simpl; [assumption|].
  apply IH.
  destruct (step_trades params st prev row) as [->|(p & why & px & _ & Hx & ->)];
    [assumption|].
  apply Forall_app. split; [assumption|].
  constructor; [|constructor].
  cbn [reason]. eapply first_exit_rule. eassumption.
Qed.

(** A position still open after the last bar is closed at that bar's
    close and time with reason end_of_data; that trade is the last entry
    of the ledger, and every other trade was closed by an exit rule. *)
Theorem forced_close_is_last (rows : list Row) (params : Params.t)
  (st : State) (d : Row) :
  simulate rows params = Ok st ->
  match position st with
  | Some p =>
      exists l, trades st = l ++ [forced_close p (List.last rows d)]
                /\ Forall (fun t => In (reason t) exit_reasons) l
  | None => Forall (fun t => In (reason t) exit_reasons) (trades st)
  end.
Proof.
  unfold simulate. destruct rows as [|first rest]; [discriminate|].
  rewrite !last_cons. intros [= <-].
  set (st0 := {| equity := Params.initial_equity params |}).
  pose proof (loop_exit_reasons params rest st0 first (Forall_nil _)) as H.
  unfold end_of_data.
  destruct (position (loop params st0 first rest)) as [p|] eqn:E.
  - cbn [position trades].
    exists (trades (loop params st0 first rest)). split; [|assumption].
    unfold forced_close, realized_pnl, pnl_long, pnl_short.
    destruct (side p); reflexivity.
  - rewrite E. assumption.
Qed.

Lemma forced_close_is_last_witness :
  simulate (generate_signals Scenario.late_bars Scenario.params1)
           Scenario.params1 = Ok Scenario.late_run
  /\ match position Scenario.late_run with
     | Some p =>
         exists l,
           trades Scenario.late_run
           = l ++ [forced_close p
                     (List.last (generate_signals Scenario.late_bars
                                                  Scenario.params1)
                                Scenario.blank)]
           /\ Forall (fun t => In (reason t) exit_reasons) l
     | None => Forall (fun t => In (reason t) exit_reasons)
                      (trades Scenario.late_run)
     end.
Proof.
  assert (H : simulate (generate_signals Scenario.late_bars Scenario.params1)
                       Scenario.params1 = Ok Scenario.late_run)
    by (vm_compute; reflexivity).
  split; [exact H|].
  exact (forced_close_is_last _ _ _ Scenario.blank H).
Defined.

(** *** How a run ends *)

Lemma generate_signals_nil (df : DataFrame) (params : Params.t) :
  generate_signals df params = [] <-> df = [].
Proof.
  split; intros H.
  - rewrite <- (generate_signals_bars df params), H. reflexivity.
  - subst. reflexivity.
Qed.

Lemma signal_zero_dec (r : Row) : {signal r = 0%Z} + {signal r <> 0%Z}.
Proof. apply Z.eq_dec. Qed.

(** A run that returns a report had bars and a signal on some row after
    the first; the report carries the ledger and the final equity of the
    loop and the summary of that ledger, and the ledger is not empty. *)
Theorem returned_run_has_traded (df : DataFrame) (params : Params.t)
  (r : Report) :
  run_backtest df params = Ok r ->
  df <> []
  /\ Exists (fun row : Row => signal row <> 0%Z)
            (tl (generate_signals df params))
  /\ exists st, simulate (generate_signals df params) params = Ok st
                 /\ ledger r = trades st
                 /\ ledger r <> []
                 /\ final_equity r = equity st
                 /\ summary (trades st) = Ok (metrics r).
Proof.
  unfold run_backtest. intros H.
  destruct (simulate (generate_signals df params) params) as [st|e] eqn:Hst;
    [|destruct e; discriminate].
  cbn [bind] in H.
  destruct (summary (trades st)) as [m|e] eqn:Hm;
    [|destruct e; discriminate].
  cbn [bind] in H. injection H as <-. cbn [ledger final_equity metrics].
  assert (Hne : trades st <> []).
  { intros E. rewrite E in Hm. discriminate. }
  split; [|split].
  - intros E. subst df. discriminate.
  - apply neg_Forall_Exists_neg; [apply signal_zero_dec|].
    intros Hz. apply Hne.
    exact (no_signal_no_trade _ params st Hz Hst).
  - exists st. repeat split; assumption.
Qed.

Lemma returned_run_has_traded_witness :
  exists r,
    run_backtest Scenario.stop_bars Scenario.params1 = Ok r
    /\ Scenario.stop_bars <> []
    /\ Exists (fun row : Row => signal row <> 0%Z)
              (tl (generate_signals Scenario.stop_bars Scenario.params1))
    /\ exists st,
         simulate (generate_signals Scenario.stop_bars Scenario.params1)
                  Scenario.params1 = Ok st
         /\ ledger r = trades st
         /\ ledger r <> []
         /\ final_equity r = equity st
         /\ summary (trades st) = Ok (metrics r).
Proof.
  destruct (run_backtest Scenario.stop_bars Scenario.params1) as [r|e] eqn:H;
    [|vm_compute in H; discriminate].
  exists r. split; [reflexivity|].
  exact (returned_run_has_traded Scenario.stop_bars Scenario.params1 r H).
Defined.

(** *** Order of the ledger *)

Lemma chronological_snoc (l : list Trade) (t : Trade) :
  chronological l ->
  Forall (fun t' : Trade => (exit_time t' < entry_time t)%Z) l ->
  chronological (l ++ [t]).
Proof.
  induction l as [|a l IH]; intros Hc Hf; [exact I|].
  inversion Hf as [|? ? Ha Hl]; subst.
  destruct l as [|b l].
  - cbn. split; [assumption|exact I].
  - cbn [chronological] in Hc. destruct Hc as [Hab Hc].
    change (chronological (a :: b :: (l ++ [t]))).
    cbn [chronological]. split; [assumption|].
    apply IH; assumption.
Qed.

Lemma entered_on_time (params : Params.t) (row : Row) (p : Position) :
  entered_on params row p -> entry_time p = name row.
Proof. intros [[_ ->]|[_ ->]]; reflexivity. Qed.

Lemma step_chronological (params : Params.t) (st : State) (prev row : Row) :
  (name prev < name row)%Z ->
  chronological (trades st) ->
  Forall (fun t : Trade => (exit_time t <= name prev)%Z) (trades st) ->
  (forall p, position st = Some p ->
             Forall (fun t : Trade => (exit_time t < entry_time p)%Z)
                    (trades st)) ->
  chronological (trades (step params st prev row))
  /\ Forall (fun t : Trade => (exit_time t <= name row)%Z)
            (trades (step params st prev row))
  /\ (forall p, position (step params st prev row) = Some p ->
                Forall (fun t : Trade => (exit_time t < entry_time p)%Z)
                       (trades (step params st prev row))).
Proof.
  intros Hlt Hc Hx Hp.
  assert (Hx' : Forall (fun t : Trade => (exit_time t <= name row)%Z)
                       (trades st)).
  { eapply Forall_impl; [|exact Hx]. cbn. intros. lia. }
  destruct (position st) as [p|] eqn:E.
  - rewrite (step_held params st prev row p E).
    destruct (first_exit p prev row) as [[why px]|].
    + unfold close_position. cbn [trades position].
      rewrite reset_daily_trades. split; [|split; [|discriminate]].
      * apply chronological_snoc; [assumption|]. cbn [opened].
        apply Hp. reflexivity.
      * apply Forall_app. split; [assumption|].
        constructor; [cbn; lia|constructor].
    + rewrite reset_daily_trades, reset_daily_position, E.
      repeat split; assumption.
  - rewrite (step_idle params st prev row E).
    rewrite entries_trades, reset_daily_trades.
    split; [assumption|]. split; [assumption|].
    intros q Hq.
    match type of Hq with
    | position (entries ?a ?s ?c ?r) = _ =>
        destruct (entries_cases a s c r) as [N|(_ & p' & He & N)];
          [rewrite reset_daily_position; assumption| |]
    end.
    + rewrite N in Hq. discriminate.
    + rewrite N in Hq. injection Hq as <-.
      rewrite (entered_on_time _ _ _ He).
      eapply Forall_impl; [|exact Hx]. cbn. intros. lia.
Qed.

Lemma loop_chronological (params : Params.t) (rest : list Row) :
  forall (st : State) (prev : Row),
    Sorted Z.lt (map (fun r : Row => name r) (prev :: rest)) ->
    chronological (trades st) ->
    Forall (fun t : Trade => (exit_time t <= name prev)%Z) (trades st) ->
    (forall p, position st = Some p ->
               Forall (fun t : Trade => (exit_time t < entry_time p)%Z)
                      (trades st)) ->
    chronological (trades (loop params st prev rest))
    /\ (forall p, position (loop params st prev rest) = Some p ->
                  Forall (fun t : Trade => (exit_time t < entry_time p)%Z)
                         (trades (loop params st prev rest))).
Proof.
  induction rest as [|row rest IH]; intros st prev Hs Hc Hx Hp;
    [split; assumption|].
  cbn [map] in Hs. apply Sorted_inv in Hs. destruct Hs as [Hs Hd].
  apply HdRel_inv in Hd.
  destruct (step_chronological params st prev row Hd Hc Hx Hp)
    as (Hc' & Hx' & Hp').
  cbn [loop]. apply IH; assumption.
Qed.

(** With strictly increasing timestamps the trades of the ledger do not
    overlap: each one is closed strictly before the next one is entered,
    so a bar that closes a trade never enters the next. *)
Theorem ledger_is_chronological (df : DataFrame) (params : Params.t)
  (st : State) :
  Sorted Z.lt (map name df) ->
  simulate (generate_signals df params) params = Ok st ->
  chronological (trades st).
Proof.
  intros Hs H.
  assert (Hn : map (fun r : Row => name r) (generate_signals df params)
               = map name df).
  { rewrite <- (generate_signals_bars df params) at 2.
    rewrite map_map. reflexivity. }
  destruct (generate_signals df params) as [|first rest]; [discriminate|].
  unfold simulate in H. injection H as <-. rewrite <- Hn in Hs.
  set (st0 := {| equity := Params.initial_equity params |}).
  destruct (loop_chronological params rest st0 first Hs I (Forall_nil _))
    as [Hc Hp]; [intros; constructor|].
  unfold end_of_data.
  destruct (position (loop params st0 first rest)) as [p|] eqn:E;
    [|assumption].
  cbn [trades]. apply chronological_snoc; [assumption|].
  cbn [opened]. apply Hp. reflexivity.
Qed.

Lemma reentry_run_reached :
  simulate (generate_signals Scenario.reentry_bars Scenario.params1)
           Scenario.params1 = Ok Scenario.reentry_run.
Proof. vm_compute. reflexivity. Qed.

(** The run over [reentry_bars] closes its first trade on bar 3 and
    enters the second on bar 4. *)
Lemma ledger_is_chronological_witness :
  Sorted Z.lt (map name Scenario.reentry_bars)
  /\ simulate (generate_signals Scenario.reentry_bars Scenario.params1)
              Scenario.params1 = Ok Scenario.reentry_run
  /\ chronological (trades Scenario.reentry_run).
Proof.
  assert (Hs : Sorted Z.lt (map name Scenario.reentry_bars))
    by (repeat constructor).
  assert (H : simulate (generate_signals Scenario.reentry_bars
                                         Scenario.params1)
                       Scenario.params1 = Ok Scenario.reentry_run)
    by (vm_compute; reflexivity).
  split; [exact Hs|]. split; [exact H|].
  exact (ledger_is_chronological _ _ _ Hs H).
Defined.

(** *** Entries *)

Lemma step_entry (params : Params.t) (st : State) (prev row : Row)
  (p : Position) :
  position st = None ->
  position (step params st prev row) = Some p ->
  entered_on params row p.
Proof.
  intros Hn Hp. rewrite (step_idle params st prev row Hn) in Hp.
  match type of Hp with
  | position (entries ?a ?s ?c ?r) = _ =>
      destruct (entries_cases a s c r) as [N|(_ & q & He & N)];
        [rewrite reset_daily_position; assumption| |]
  end.
  - rewrite N in Hp. discriminate.
  - rewrite N in Hp. injection Hp as <-. assumption.
Qed.

Lemma le_fin (a b : Q) : (a <= b)%Q -> (fin a <=? fin b) = true.
Proof.
  intros H. unfold le, cmp. destruct (a ?= b)%Q eqn:E; try reflexivity.
  apply Qgt_alt in E. exfalso. apply (Qlt_not_le _ _ E). assumption.
Qed.

Lemma ge_fin (a b : Q) : (b <= a)%Q -> (fin a >=? fin b) = true.
Proof.
  intros H. unfold ge, cmp. destruct (a ?= b)%Q eqn:E; try reflexivity.
  apply Qlt_alt in E. exfalso. apply (Qlt_not_le _ _ E). assumption.
Qed.

(** A position opened on a bar with a finite open, where ATR and
    [atr_mult] are finite and not negative, is entered at the open of
    that bar, and its entry price lies between its stop and its target:
    stop <= entry <= target for a long, target <= entry <= stop for a
    short. *)
Theorem entry_lies_between_stop_and_target (params : Params.t) (st : State)
  (prev row : Row) (p : Position) (o : Q) :
  position st = None ->
  position (step params st prev row) = Some p ->
  open row = fin o ->
  nonneg (atr row) ->
  nonneg (Params.atr_mult params) ->
  entry_price p = open row
  /\ entry_time p = name row
  /\ match side p with
     | LONG => signal row = 1%Z
               /\ (stop p <=? entry_price p) = true
               /\ (entry_price p <=? tp p) = true
     | SHORT => signal row = (-1)%Z
                /\ (tp p <=? entry_price p) = true
                /\ (entry_price p <=? stop p) = true
     end.
Proof.
  intros Hn Hp Ho (a & Ha & Ha0) (m & Hm & Hm0).
  assert (Hma : (0 <= m * a)%Q) by (apply Qmult_le_0_compat; assumption).
  destruct (step_entry params st prev row p Hn Hp) as [[Hs ->]|[Hs ->]];
    unfold long_entry, short_entry; cbn [entry_price stop tp side entry_time];
    rewrite Ho, Ha, Hm; cbn [add sub mul neg];
    (split; [reflexivity|]); (split; [reflexivity|]);
    (split; [assumption|]); split; apply le_fin;
    rewrite !Qred_correct; lra.
Qed.

Lemma entry_lies_between_stop_and_target_witness :
  let st0 := {| equity := fin 100000; daily_start := 0;
                daily_pnl := fin 0; position := None; trades := [] |} in
  let prev := Scenario.row_at Scenario.stop_bars 0 in
  let row := Scenario.row_at Scenario.stop_bars 1 in
  position st0 = None
  /\ position (step Scenario.params1 st0 prev row) = Some Scenario.held
  /\ open row = fin 100
  /\ nonneg (atr row)
  /\ nonneg (Params.atr_mult Scenario.params1)
  /\ entry_price Scenario.held = open row
  /\ entry_time Scenario.held = name row
  /\ match side Scenario.held with
     | LONG => signal row = 1%Z
               /\ (stop Scenario.held <=? entry_price Scenario.held) = true
               /\ (entry_price Scenario.held <=? tp Scenario.held) = true
     | SHORT => signal row = (-1)%Z
                /\ (tp Scenario.held <=? entry_price Scenario.held) = true
                /\ (entry_price Scenario.held <=? stop Scenario.held) = true
     end.
Proof.
  intros st0 prev row.
  assert (H1 : position st0 = None) by reflexivity.
  assert (H2 : position (step Scenario.params1 st0 prev row)
               = Some Scenario.held) by (vm_compute; reflexivity).
  assert (H3 : open row = fin 100) by (vm_compute; reflexivity).
  assert (H4 : nonneg (atr row)).
  { exists 1%Q. split; [vm_compute; reflexivity|discriminate]. }
  assert (H5 : nonneg (Params.atr_mult Scenario.params1)).
  { exists 1%Q. split; [reflexivity|discriminate]. }
  split; [exact H1|]. split; [exact H2|]. split; [exact H3|].
  split; [exact H4|]. split; [exact H5|].
  exact (entry_lies_between_stop_and_target Scenario.params1 st0 prev row
           Scenario.held 100 H1 H2 H3 H4 H5).
Defined.

(** *** The daily loss limit *)

Lemma entries_blocked (params : Params.t) (st : State) (row : Row) :
  entries params st false row = st.
Proof. unfold entries. destruct (position st); reflexivity. Qed.

Lemma reset_daily_same_day (st : State) (row : Row) :
  date (name row) = daily_start st -> reset_daily st row = st.
Proof.
  intros H. unfold reset_daily. rewrite H, Z.eqb_refl. reflexivity.
Qed.

(** Once the day's P&L is at or below minus the loss-limit fraction of
    the equity and no position is held, the bars of the rest of that day
    change nothing: no position is opened, whatever their signals. *)
Theorem loss_limit_stops_entries_for_the_day (params : Params.t)
  (rest : list Row) :
  forall (st : State) (prev : Row),
    position st = None ->
    (daily_pnl st <=? - Params.daily_loss_limit_pct params * equity st)
    = true ->
    Forall (fun r : Row => date (name r) = daily_start st) rest ->
    loop params st prev rest = st.
Proof.
  induction rest as [|row rest IH]; intros st prev Hn Hg Hd; [reflexivity|].
  inversion Hd as [|? ? Hrow Hrest]; subst. cbn [loop].
  assert (E : step params st prev row = st).
  { rewrite (step_idle params st prev row Hn).
    rewrite (reset_daily_same_day st row Hrow), Hg. cbn [negb].
    apply entries_blocked. }
  rewrite E. apply IH; assumption.
Qed.

Lemma loss_limit_stops_entries_for_the_day_witness :
  let st := {| equity := fin 100; daily_start := 0;
               daily_pnl := fin (-15); position := None; trades := [] |} in
  let rows := generate_signals Scenario.stop_bars Scenario.params1 in
  position st = None
  /\ (daily_pnl st
      <=? - Params.daily_loss_limit_pct Scenario.params1 * equity st) = true
  /\ Forall (fun r : Row => date (name r) = daily_start st) (tl rows)
  /\ signal (Scenario.row_at Scenario.stop_bars 1) = 1%Z
  /\ loop Scenario.params1 st (Scenario.row_at Scenario.stop_bars 0) (tl rows)
     = st.
Proof.
  intros st rows.
  assert (H1 : position st = None) by reflexivity.
  assert (H2 : (daily_pnl st
                <=? - Params.daily_loss_limit_pct Scenario.params1
                    * equity st) = true) by (vm_compute; reflexivity).
  assert (H3 : Forall (fun r : Row => date (name r) = daily_start st)
                      (tl rows)).
  { unfold rows.
    rewrite (stop_bars_rows (fin 100000)
             : generate_signals Scenario.stop_bars Scenario.params1 = _).
    repeat constructor. }
  split; [exact H1|]. split; [exact H2|]. split; [exact H3|].
  split; [vm_compute; reflexivity|].
  exact (loss_limit_stops_entries_for_the_day Scenario.params1 (tl rows) st
           (Scenario.row_at Scenario.stop_bars 0) H1 H2 H3).
Defined.

(* ================================================================== *)
(** ** The signal frame *)

(** The frame of signals has one row per bar, in the order of the bars,
    and carries each bar unchanged. *)
Theorem signal_frame_keeps_bars (df : DataFrame) (params : Params.t) :
  map (fun r : Row => bar r) (generate_signals df params) = df
  /\ List.length (generate_signals df params) = List.length df
  /\ map (fun x : Indicators => bar x) (prepare_indicators df params) = df.
Proof.
  split; [apply generate_signals_bars|]. split.
  - rewrite <- (generate_signals_bars df params) at 2.
    rewrite length_map. reflexivity.
  - apply prepare_indicators_bars.
Qed.

Lemma gt_lt_exclusive (x y : float) : (x >? y) && (x <? y) = false.
Proof. unfold gt, lt. destruct (cmp x y) as [[]|]; reflexivity. Qed.

Lemma andb_true_both (a b : bool) : a && b = true -> a = true /\ b = true.
Proof. destruct a, b; auto. Qed.

Lemma signals_exclusive (params : Params.t) (x : Indicators) (e m h : float) :
  long_setup (signals params x e m h)
  && short_setup (signals params x e m h) = false.
Proof.
  cbn [signals long_setup short_setup].
  pose proof (gt_lt_exclusive (ema9 x) (ema21 x)) as H.
  destruct (ema9 x >? ema21 x), (ema9 x <? ema21 x); try discriminate;
    cbn; rewrite ?andb_false_r; reflexivity.
Qed.

(** On every row of the signal frame the long and the short setup exclude
    each other; the signal is 1 exactly when the long setup holds, -1
    exactly when the short setup holds and 0 otherwise; a setup holds
    exactly when its seven filters hold; and no row flags an ema9 break,
    or a MACD flip, against both sides. *)
Theorem signal_follows_exclusive_setups (df : DataFrame)
  (params : Params.t) (r : Row) :
  In r (generate_signals df params) ->
  long_setup r && short_setup r = false
  /\ signal r = (if long_setup r then 1 else if short_setup r then -1 else 0)%Z
  /\ long_setup r
     = in_ny r && htf_bull r && ema_long_stack r && vwap_long r && vol_ok r
       && macd_rising r && pullback_to_ema r
  /\ short_setup r
     = in_ny r && htf_bear r && ema_short_stack r && vwap_short r && vol_ok r
       && macd_falling r && pullback_to_ema r
  /\ htf_bull r && htf_bear r = false
  /\ ema9_break_long r && ema9_break_short r = false
  /\ macd_flip_long r && macd_flip_short r = false.
Proof.
  intros Hin.
  destruct (generate_signals_rows df params r Hin) as (x & e & m & h & ->).
  pose proof (signals_exclusive params x e m h) as Hx.
  split; [assumption|]. split.
  - change (signal (signals params x e m h))
      with (if short_setup (signals params x e m h) then (-1)%Z
            else if long_setup (signals params x e m h) then 1%Z else 0%Z).
    destruct (long_setup (signals params x e m h)),
             (short_setup (signals params x e m h));
      try reflexivity; discriminate.
  - split; [reflexivity|]. split; [reflexivity|].
    cbn [signals htf_bull htf_bear ema9_break_long ema9_break_short
         macd_flip_long macd_flip_short].
    split; [|split].
    + pose proof (gt_lt_exclusive (close x) e) as H.
      destruct (close x >? e), (close x <? e); try discriminate;
        cbn; rewrite ?andb_false_r; reflexivity.
    + rewrite andb_comm. apply gt_lt_exclusive.
    + rewrite andb_comm. apply gt_lt_exclusive.
Qed.

Lemma signal_follows_exclusive_setups_witness :
  let r := Scenario.row_at Scenario.stop_bars 1 in
  In r (generate_signals Scenario.stop_bars Scenario.params1)
  /\ long_setup r = true
  /\ signal r = (if long_setup r then 1
                 else if short_setup r then -1 else 0)%Z.
Proof.
  intros r.
  assert (Hin : In r (generate_signals Scenario.stop_bars Scenario.params1))
    by (right; left; reflexivity).
  split; [exact Hin|]. split; [vm_compute; reflexivity|].
  exact (proj1 (proj2 (signal_follows_exclusive_setups
                         Scenario.stop_bars Scenario.params1 r Hin))).
Defined.

(** *** Session *)

Lemma in_enumerate {A} (l : list A) (a : A) (i : nat) :
  In (a, i) (enumerate l) -> nth_error l i = Some a.
Proof.
  unfold enumerate. intros H.
  assert (G : forall (l : list A) n, In (a, i) (combine l (seq n (List.length l)))
                   -> (n <= i)%nat /\ nth_error l (i - n) = Some a).
  { clear. induction l as [|b l IH]; intros n H; [destruct H|].
    cbn in H. destruct H as [H|H].
    - injection H as -> ->. rewrite Nat.sub_diag. split; [lia|reflexivity].
    - apply IH in H. destruct H as [Hle H]. split; [lia|].
      replace (i - n)%nat with (S (i - S n)) by lia. exact H. }
  apply G in H. rewrite Nat.sub_0_r in H. apply H.
Qed.

Lemma flag_map {A} (f : A -> bool) (l : list A) (a : A) (i : nat) :
  nth_error l i = Some a -> flag (map f l) i = f a.
Proof.
  unfold flag. revert i. induction l as [|b l IH]; intros i H.
  - destruct i; discriminate.
  - destruct i as [|i]; [injection H as ->; reflexivity|].
    cbn. apply IH. exact H.
Qed.

(** The session flag of a prepared row is the test of its own timestamp. *)
Lemma prepare_indicators_in_ny (df : DataFrame) (params : Params.t)
  (x : Indicators) :
  In x (prepare_indicators df params) ->
  in_ny x
  = ((local_time params (name x) >=? Params.session_start params)%Z
     && (local_time params (name x) <=? Params.session_end params)%Z).
Proof.
  unfold prepare_indicators.
  destruct (Utils.macd _ _ _ _) as [[c_line c_signal] c_hist].
  intros H. apply in_map_iff in H. destruct H as ([b i] & <- & Hin).
  apply in_enumerate in Hin. cbn [in_ny bar name].
  unfold Utils.in_ny_session_index. rewrite !map_map.
  rewrite (flag_map _ df b i Hin). reflexivity.
Qed.

(** A row of the signal frame is flagged as in session exactly when the
    local time of day of its timestamp lies between the session start and
    end, both included; a row outside the session never signals. *)
Theorem signals_only_in_session (df : DataFrame) (params : Params.t)
  (r : Row) :
  In r (generate_signals df params) ->
  (in_ny r = true <-> in_session params (name r))
  /\ (signal r <> 0%Z -> in_session params (name r)).
Proof.
  intros Hin.
  assert (Hx : In (ind r) (prepare_indicators df params)).
  { rewrite <- generate_signals_ind. apply in_map. assumption. }
  pose proof (prepare_indicators_in_ny df params (ind r) Hx) as Hny.
  assert (Hiff : in_ny r = true <-> in_session params (name r)).
  { rewrite Hny. unfold in_session. rewrite andb_true_iff.
    rewrite Z.geb_le, Z.leb_le. reflexivity. }
  split; [assumption|]. intros Hs. apply Hiff.
  destruct (generate_signals_rows df params r Hin) as (x & e & m & h & ->).
  cbn [signals signal ind in_ny] in *.
  destruct (in_ny x); [reflexivity|]. cbn in Hs. congruence.
Qed.

Lemma signals_only_in_session_witness :
  let r := Scenario.row_at Scenario.stop_bars 1 in
  In r (generate_signals Scenario.stop_bars Scenario.params1)
  /\ signal r <> 0%Z
  /\ in_session Scenario.params1 (name r).
Proof.
  intros r.
  assert (Hin : In r (generate_signals Scenario.stop_bars Scenario.params1))
    by (right; left; reflexivity).
  assert (Hs : signal r <> 0%Z) by (vm_compute; discriminate).
  split; [exact Hin|]. split; [exact Hs|].
  exact (proj2 (signals_only_in_session Scenario.stop_bars Scenario.params1
                  r Hin) Hs).
Defined.

Lemma ledger_entered_among (rows : list Row) (params : Params.t)
  (st : State) :
  simulate rows params = Ok st ->
  Forall (fun t : Trade => entered_among params (tl rows) t) (trades st).
Proof.
  unfold simulate. destruct rows as [|first rest]; [discriminate|].
  intros [= <-]. cbn [tl].
  set (st0 := {| equity := Params.initial_equity params |}).
  destruct (loop_provenance params rest rest st0 first (incl_refl _)
              (Forall_nil _)) as [Ht Hp]; [discriminate|].
  unfold end_of_data.
  destruct (position (loop params st0 first rest)) as [p|] eqn:E;
    [|assumption].
  cbn [trades]. apply Forall_app. split; [assumption|].
  constructor; [|constructor]. cbn [opened]. apply Hp. reflexivity.
Qed.

(** Every trade of a run is entered on a bar inside the session. *)
Theorem trades_are_entered_in_session (df : DataFrame) (params : Params.t)
  (st : State) :
  simulate (generate_signals df params) params = Ok st ->
  Forall (fun t : Trade => in_session params (entry_time t)) (trades st).
Proof.
  intros H. eapply Forall_impl; [|exact (ledger_entered_among _ _ _ H)].
  intros t (r & Hr & He). rewrite (entered_on_time _ _ _ He).
  assert (Hin : In r (generate_signals df params)).
  { destruct (generate_signals df params); [destruct Hr|right; exact Hr]. }
  assert (Hx : In (ind r) (prepare_indicators df params)).
  { rewrite <- generate_signals_ind. apply in_map. assumption. }
  pose proof (prepare_indicators_in_ny df params (ind r) Hx) as Hny.
  unfold in_session.
  assert (Ht : in_ny r = true).
  { destruct (generate_signals_rows df params r Hin) as (x & e & m & h & ->).
    unfold entered_on in He. cbn [signals signal ind in_ny] in *.
    destruct (in_ny x); [reflexivity|].
    cbn in He. destruct He as [[E _]|[E _]]; discriminate. }
  rewrite Hny in Ht. apply andb_true_iff in Ht.
  rewrite Z.geb_le, Z.leb_le in Ht. exact Ht.
Qed.

Lemma trades_are_entered_in_session_witness :
  simulate (generate_signals Scenario.reentry_bars Scenario.params1)
           Scenario.params1 = Ok Scenario.reentry_run
  /\ Forall (fun t : Trade => in_session Scenario.params1 (entry_time t))
            (trades Scenario.reentry_run).
Proof.
  assert (H : simulate (generate_signals Scenario.reentry_bars
                                         Scenario.params1)
                       Scenario.params1 = Ok Scenario.reentry_run)
    by (vm_compute; reflexivity).
  split; [exact H|].
  exact (trades_are_entered_in_session _ _ _ H).
Defined.

(* ================================================================== *)
(** ** Summary figures *)

Lemma of_nat_div (w n : nat) :
  (0 < n)%nat ->
  of_Z (Z.of_nat w) / of_Z (Z.of_nat n)
  = fin (Qred (inject_Z (Z.of_nat w) / inject_Z (Z.of_nat n))).
Proof.
  intros Hn. unfold of_Z, div.
  assert (H : (inject_Z (Z.of_nat n) ?= 0)%Q = Gt).
  { apply Qgt_alt. change 0%Q with (inject_Z 0). rewrite <- Zlt_Qlt. lia. }
  rewrite H. reflexivity.
Qed.

(** When the summary is computed, the win rate is a finite number between
    0 and 1. *)
Theorem win_rate_is_a_fraction (trades_df : list Trade) (m : Summary) :
  summary trades_df = Ok m ->
  exists q, win_rate m = fin q /\ (0 <= q <= 1)%Q.
Proof.
  destruct trades_df as [|t l]; [discriminate|].
  destruct (summary_nonempty t l) as (m' & Hm & Hw & _).
  rewrite Hm. intros [= <-]. rewrite Hw. unfold win_rate_spec.
  rewrite <- wins_of_gains, length_map.
  set (w := List.length (wins_of (t :: l))).
  set (n := List.length (t :: l)).
  assert (Hn : (0 < n)%nat) by (unfold n; cbn; lia).
  assert (Hwn : (w <= n)%nat) by (apply filter_length_le).
  rewrite (of_nat_div w n Hn). eexists. split; [reflexivity|].
  rewrite Qred_correct.
  assert (Hq : (0 < inject_Z (Z.of_nat n))%Q).
  { change 0%Q with (inject_Z 0). rewrite <- Zlt_Qlt. lia. }
  split.
  - apply Qle_shift_div_l; [assumption|]. rewrite Qmult_0_l.
    change 0%Q with (inject_Z 0). rewrite <- Zle_Qle. lia.
  - apply Qle_shift_div_r; [assumption|]. rewrite Qmult_1_l.
    rewrite <- Zle_Qle. lia.
Qed.

Lemma win_rate_is_a_fraction_witness :
  summary (trades Scenario.reentry_run)
  = Ok {| total_pnl := fin (-10); win_rate := fin 0;
          profit_factor := fin 0 |}
  /\ exists q, fin 0 = fin q /\ (0 <= q <= 1)%Q.
Proof.
  assert (H : summary (trades Scenario.reentry_run)
              = Ok {| total_pnl := fin (-10); win_rate := fin 0;
                      profit_factor := fin 0 |})
    by (vm_compute; reflexivity).
  split; [exact H|].
  exact (win_rate_is_a_fraction _ _ H).
Defined.

(* ================================================================== *)
(** ** EMA and MACD on a flat series *)

Lemma ewm_from_length (alpha : float) (s : Series) :
  forall weighted old_wt,
    List.length (ewm_from alpha weighted old_wt s) = List.length s.
Proof.
  induction s as [|x s IH]; intros w o; [reflexivity|].
  cbn [ewm_from].
  destruct (if negb (is_nan w) then _ else _) as [w' o'].
  cbn [List.length]. rewrite IH. reflexivity.
Qed.

Lemma ema_length (series : Series) (span : positive) :
  List.length (Utils.ema series span) = List.length series.
Proof.
  unfold Utils.ema, ewm_mean.
  rewrite <- (length_map (fun x => match x with
                                   | pinf | ninf => nan
                                   | _ => x
                                   end) series).
  fold (prep_values series).
  destruct (prep_values series) as [|x s]; [reflexivity|].
  cbn [List.length]. rewrite ewm_from_length. reflexivity.
Qed.

Lemma neb_same (c : Q) : neb (fin c) (fin c) = false.
Proof.
  unfold neb, eqb, cmp.
  assert (H : (c ?= c)%Q = Eq) by (apply Qeq_alt; reflexivity).
  rewrite H. reflexivity.
Qed.

Lemma ewm_from_flat (alpha : float) (c : Q) (n : nat) :
  forall old_wt,
    ewm_from alpha (fin c) old_wt (repeat (fin c) n) = repeat (fin c) n.
Proof.
  induction n as [|n IH]; intros o; [reflexivity|].
  cbn [repeat ewm_from is_nan negb]. rewrite neb_same, IH. reflexivity.
Qed.

Lemma ema_flat (c : Q) (n : nat) (span : positive) :
  Utils.ema (repeat (fin c) n) span = repeat (fin c) n.
Proof.
  unfold Utils.ema, ewm_mean.
  rewrite prep_values_id
    by (apply Forall_forall; intros x Hx; apply repeat_spec in Hx;
        subst; split; discriminate).
  destruct n as [|n]; [reflexivity|].
  cbn [repeat]. rewrite ewm_from_flat. reflexivity.
Qed.

(** [ema] returns a series of the length of its argument, and a series
    that repeats one finite value is returned as it is, exactly, for
    every span. *)
Theorem ema_keeps_length_and_flat_series :
  (forall (series : Series) (span : positive),
      List.length (Utils.ema series span) = List.length series)
  /\ (forall (c : Q) (n : nat) (span : positive),
        Utils.ema (repeat (fin c) n) span = repeat (fin c) n).
Proof.
  split; [apply ema_length|apply ema_flat].
Qed.

Lemma sub_same (c : Q) : fin c - fin c = fin 0.
Proof.
  cbn [sub add neg]. f_equal.
  change 0%Q with (Qred 0). apply Qred_complete.
  rewrite Qred_correct. ring.
Qed.

Lemma map2_repeat (f : float -> float -> float) (x y : float) (n : nat) :
  map2 f (repeat x n) (repeat y n) = repeat (f x y) n.
Proof.
  induction n as [|n IH]; [reflexivity|]. cbn. rewrite IH. reflexivity.
Qed.

Lemma macd_flat (c : Q) (n : nat) (fast slow signal : positive) :
  Utils.macd (repeat (fin c) n) fast slow signal
  = (repeat (fin 0) n, repeat (fin 0) n, repeat (fin 0) n).
Proof.
  unfold Utils.macd. rewrite !ema_flat, map2_repeat, sub_same.
  rewrite ema_flat, map2_repeat. reflexivity.
Qed.

Lemma map_flat {A} (f : A -> float) (v : float) (l : list A) :
  Forall (fun a => f a = v) l -> map f l = repeat v (List.length l).
Proof.
  induction 1 as [|a l Ha Hl IH]; [reflexivity|].
  cbn. rewrite Ha, IH. reflexivity.
Qed.

Lemma cell_repeat (v : float) (n i : nat) :
  (i < n)%nat -> cell (repeat v n) i = v.
Proof.
  unfold cell. revert i. induction n as [|n IH]; intros i H; [lia|].
  destruct i as [|i]; [reflexivity|]. cbn. apply IH. lia.
Qed.

Lemma in_enumerate_bound {A} (l : list A) (a : A) (i : nat) :
  In (a, i) (enumerate l) -> (i < List.length l)%nat.
Proof.
  intros H. apply in_enumerate in H. apply nth_error_Some. congruence.
Qed.

(** On flat closes every prepared row has a MACD histogram of zero. *)
Lemma prepare_indicators_flat (df : DataFrame) (params : Params.t) (c : Q) :
  Forall (fun b => close b = fin c) df ->
  Forall (fun x : Indicators => macd_hist x = fin 0)
         (prepare_indicators df params).
Proof.
  intros Hf. apply Forall_forall. intros x Hx.
  unfold prepare_indicators in Hx.
  rewrite (map_flat close (fin c) df Hf), macd_flat in Hx.
  apply in_map_iff in Hx. destruct Hx as ([b i] & <- & Hin).
  cbn [macd_hist]. apply cell_repeat.
  apply in_enumerate_bound in Hin. assumption.
Qed.

Lemma In_removelast {A} (a : A) (l : list A) :
  In a (removelast l) -> In a l.
Proof.
  induction l as [|x l IH]; [intros []|].
  destruct l as [|y l]; [intros []|].
  change (removelast (x :: y :: l)) with (x :: removelast (y :: l)).
  intros [<-|H]; [left; reflexivity|right; apply IH; exact H].
Qed.

Lemma cell_shift1_flat (s : Series) (v : float) (i : nat) :
  Forall (fun x => x = v) s ->
  cell (shift1 s) i = nan \/ cell (shift1 s) i = v.
Proof.
  intros H. unfold cell, shift1. destruct s as [|x s]; [destruct i; auto|].
  destruct i as [|i]; [left; reflexivity|].
  change (nth (S i) (nan :: removelast (x :: s)) nan)
    with (nth i (removelast (x :: s)) nan).
  destruct (nth_in_or_default i (removelast (x :: s)) nan) as [Hin|E];
    [|left; exact E].
  right. rewrite Forall_forall in H. apply H.
  apply In_removelast. exact Hin.
Qed.

Lemma generate_signals_rows_prev (df : DataFrame) (params : Params.t)
  (r : Row) :
  In r (generate_signals df params) ->
  exists x e m i,
    In x (prepare_indicators df params)
    /\ r = signals params x e m
             (cell (shift1 (map (fun x : Indicators => macd_hist x)
                                (prepare_indicators df params))) i).
Proof.
  unfold generate_signals. intros H.
  apply in_map_iff in H. destruct H as ([x i] & <- & Hin).
  apply in_enumerate in Hin. apply nth_error_In in Hin.
  exists x. do 2 eexists. exists i. split; [assumption|reflexivity].
Qed.

Lemma flat_rows_no_signal (df : DataFrame) (params : Params.t) (c : Q) :
  Forall (fun b => close b = fin c) df ->
  Forall (fun r : Row => signal r = 0%Z /\ macd_hist r = fin 0)
         (generate_signals df params).
Proof.
  intros Hf. apply Forall_forall. intros r Hr.
  destruct (generate_signals_rows_prev df params r Hr)
    as (x & e & m & i & Hx & ->).
  pose proof (prepare_indicators_flat df params c Hf) as Hz.
  assert (Hx0 : macd_hist x = fin 0)
    by (rewrite Forall_forall in Hz; apply Hz; assumption).
  assert (Hprev : Forall (fun v => v = fin 0)
                         (map (fun x : Indicators => macd_hist x)
                              (prepare_indicators df params)))
    by (apply Forall_map; exact Hz).
  split; [|exact Hx0].
  cbn [signals signal]. rewrite Hx0.
  destruct (cell_shift1_flat _ (fin 0) i Hprev) as [-> | ->]; cbn;
    rewrite ?andb_false_r; reflexivity.
Qed.

(** A frame whose closes all equal one finite value has a MACD histogram
    of zero on every row and never signals; a run over such a frame, when
    it has a bar, closes no trade and ends in the KeyError of the
    summary. *)
Theorem flat_closes_never_signal (df : DataFrame) (params : Params.t)
  (c : Q) :
  Forall (fun b => close b = fin c) df ->
  Forall (fun r : Row => signal r = 0%Z /\ macd_hist r = fin 0)
         (generate_signals df params)
  /\ (df <> [] -> run_backtest df params = Raise KeyError).
Proof.
  intros Hf. pose proof (flat_rows_no_signal df params c Hf) as Hz.
  split; [assumption|]. intros Hne. unfold run_backtest.
  destruct (generate_signals df params) as [|first rest] eqn:Hg.
  - apply generate_signals_nil in Hg. contradiction.
  - destruct (simulate_nonempty first rest params) as (st & Hst).
    rewrite Hst. cbn [bind].
    rewrite (no_signal_no_trade (first :: rest) params st); [reflexivity| |].
    + cbn [tl]. inversion Hz as [|? ? _ Hrest]; subst.
      eapply Forall_impl; [|exact Hrest]. cbn. tauto.
    + assumption.
Qed.

Lemma flat_closes_never_signal_witness :
  let df := [Scenario.flat 0 10; Scenario.flat 60 10; Scenario.flat 120 10] in
  Forall (fun b => close b = fin 10) df
  /\ Forall (fun r : Row => signal r = 0%Z /\ macd_hist r = fin 0)
            (generate_signals df Scenario.params1)
  /\ (df <> [] -> run_backtest df Scenario.params1 = Raise KeyError).
Proof.
  intros df.
  assert (H : Forall (fun b => close b = fin 10) df)
    by (repeat constructor).
  split; [exact H|].
  exact (flat_closes_never_signal df Scenario.params1 10 H).
Defined.

(* ================================================================== *)
(** ** ATR *)

Lemma Forall_map2 (P Q R : float -> Prop) (f : float -> float -> float)
  (xs ys : Series) :
  (forall x y, P x -> Q y -> R (f x y)) ->
  Forall P xs -> Forall Q ys -> Forall R (map2 f xs ys).
Proof.
  intros Hf Hx. revert ys. induction Hx as [|x xs Hx Hxs IH]; intros ys Hy;
    [constructor|].
  destruct Hy as [|y ys Hy Hys]; [constructor|].
  cbn. constructor; [apply Hf; assumption|apply IH; assumption].
Qed.

Lemma map2_length {A B C} (f : A -> B -> C) (xs : list A) (ys : list B) :
  List.length xs = List.length ys ->
  List.length (map2 f xs ys) = List.length xs.
Proof.
  revert ys. induction xs as [|x xs IH]; intros ys H; [reflexivity|].
  destruct ys as [|y ys]; [discriminate|].
  cbn in *. rewrite IH; [reflexivity|lia].
Qed.

Lemma shift1_length (s : Series) : List.length (shift1 s) = List.length s.
Proof.
  unfold shift1. destruct s as [|x s]; [reflexivity|].
  cbn [List.length]. rewrite removelast_firstn_len, length_firstn.
  cbn [List.length]. lia.
Qed.

Lemma Forall_shift1 (P : float -> Prop) (s : Series) :
  P nan -> Forall P s -> Forall P (shift1 s).
Proof.
  intros Hn H. unfold shift1. destruct s as [|x s]; [constructor|].
  constructor; [assumption|].
  apply Forall_forall. intros a Ha. rewrite Forall_forall in H.
  apply H. apply In_removelast. assumption.
Qed.

Lemma nonneg_not_nan (x : float) : nonneg x -> is_nan x = false.
Proof. intros (q & -> & _). reflexivity. Qed.

Lemma abs_gap_nonneg (x y : float) :
  is_fin x = true ->
  (is_nan y = true \/ is_fin y = true) ->
  is_nan (abs (x - y)) = true \/ nonneg (abs (x - y)).
Proof.
  intros Hx [Hy|Hy]; destruct x; try discriminate; destruct y;
    try discriminate; [left; reflexivity|].
  right. cbn [sub add neg abs]. eexists. split; [reflexivity|].
  rewrite Qred_correct. apply Qabs_nonneg.
Qed.

Lemma max2_nonneg (x y : float) :
  nonneg x ->
  (is_nan y = true \/ nonneg y) ->
  nonneg (max2 x y).
Proof.
  intros Hx Hy. unfold max2. rewrite (nonneg_not_nan x Hx).
  destruct Hy as [Hy|Hy]; [rewrite Hy; assumption|].
  rewrite (nonneg_not_nan y Hy). destruct (x >=? y); assumption.
Qed.

Lemma add_nonneg (x y : float) : nonneg x -> nonneg y -> nonneg (x + y).
Proof.
  intros (a & -> & Ha) (b & -> & Hb). cbn [add]. eexists.
  split; [reflexivity|]. rewrite Qred_correct.
  setoid_replace 0%Q with (0 + 0)%Q by reflexivity.
  apply Qplus_le_compat; assumption.
Qed.

Lemma fold_add_nonneg (s : Series) :
  Forall nonneg s ->
  forall acc, nonneg acc -> nonneg (fold_left add s acc).
Proof.
  induction 1 as [|x s Hx Hs IH]; intros acc Hacc; [assumption|].
  cbn [fold_left]. apply IH. apply add_nonneg; assumption.
Qed.

Lemma dropna_nonneg (s : Series) : Forall nonneg s -> dropna s = s.
Proof.
  intros H. unfold dropna. apply forallb_filter_id.
  apply forallb_forall. rewrite Forall_forall in H.
  intros x Hx. rewrite (nonneg_not_nan x (H x Hx)). reflexivity.
Qed.

(** The mean of finite values that are not negative, at least one of
    them, is finite and not negative. *)
Lemma mean_nonneg (s : Series) :
  s <> [] -> Forall nonneg s -> nonneg (mean s).
Proof.
  intros Hne H. unfold mean, sum. rewrite (dropna_nonneg s H).
  destruct s as [|x s]; [contradiction|].
  set (l := x :: s) in *.
  destruct (fold_add_nonneg l H (fin 0)) as (a & -> & Ha).
  { exists 0%Q. split; [reflexivity|apply Qle_refl]. }
  unfold of_Z, div.
  assert (Hn : (0 < inject_Z (Z.of_nat (List.length l)))%Q).
  { change 0%Q with (inject_Z 0). rewrite <- Zlt_Qlt. unfold l. cbn. lia. }
  assert (Hc : (inject_Z (Z.of_nat (List.length l)) ?= 0)%Q = Gt)
    by (apply Qgt_alt; assumption).
  rewrite Hc. eexists. split; [reflexivity|].
  rewrite Qred_correct. apply Qle_shift_div_l; [assumption|].
  rewrite Qmult_0_l. assumption.
Qed.

Lemma window_nonempty (n i : nat) (s : Series) :
  (0 < n)%nat -> (i < List.length s)%nat -> window n i s <> [].
Proof.
  intros Hn Hi Hw. apply (f_equal (@List.length float)) in Hw.
  unfold window in Hw. rewrite length_skipn, length_firstn in Hw.
  change (List.length (@nil float)) with 0%nat in Hw. lia.
Qed.

Lemma Forall_window (P : float -> Prop) (n i : nat) (s : Series) :
  Forall P s -> Forall P (window n i s).
Proof.
  intros H. unfold window. apply Forall_forall. intros x Hx.
  rewrite Forall_forall in H. apply H.
  rewrite <- (firstn_skipn (S i) s). apply in_or_app. left.
  rewrite <- (firstn_skipn (S i - n) (firstn (S i) s)).
  apply in_or_app. right. exact Hx.
Qed.

Lemma rolling_mean_nonneg (n : positive) (s : Series) :
  Forall nonneg s -> Forall nonneg (rolling_mean n s).
Proof.
  intros H. unfold rolling_mean.
  rewrite prep_values_id
    by (eapply Forall_impl; [|exact H];
        intros x (q & -> & _); split; discriminate).
  apply Forall_map, Forall_forall.
  intros i Hi. apply in_seq in Hi.
  apply mean_nonneg.
  - apply window_nonempty; lia.
  - apply Forall_window. assumption.
Qed.

Lemma nonneg_not_below_zero (x : float) : nonneg x -> (x <? fin 0) = false.
Proof.
  intros (q & -> & Hq). unfold lt, cmp.
  destruct (q ?= 0)%Q eqn:E; try reflexivity.
  apply Qlt_alt in E. exfalso. apply (Qlt_not_le _ _ E). assumption.
Qed.

(** For bars with finite fields whose high is not below their low, ATR
    has one entry per bar, and no entry is below zero. *)
Theorem atr_is_never_negative (df : DataFrame) (length : positive) :
  Forall finite_bar df ->
  Forall (fun b => (low b <=? high b) = true) df ->
  List.length (Utils.atr df length) = List.length df
  /\ Forall (fun x => (x <? fin 0) = false) (Utils.atr df length).
Proof.
  intros Hf Hhl. unfold Utils.atr.
  assert (Hfin : forall (f : Bar -> float),
             (forall b, finite_bar b -> is_fin (f b) = true) ->
             Forall (fun x => is_fin x = true) (map f df)).
  { intros f Hfb. apply Forall_map. eapply Forall_impl; [|exact Hf].
    exact Hfb. }
  assert (Hh : Forall (fun x => is_fin x = true) (map high df))
    by (apply Hfin; intros b Hb; apply Hb).
  assert (Hl : Forall (fun x => is_fin x = true) (map low df))
    by (apply Hfin; intros b Hb; apply Hb).
  assert (Hc : Forall (fun x => is_nan x = true \/ is_fin x = true)
                      (shift1 (map close df))).
  { apply Forall_shift1; [left; reflexivity|].
    apply Forall_map. eapply Forall_impl; [|exact Hf].
    intros b Hb. right. apply Hb. }
  assert (H1 : Forall nonneg (map2 sub (map high df) (map low df))).
  { rewrite map2_map. apply Forall_map.
    rewrite Forall_forall in Hf, Hhl. apply Forall_forall. intros b Hb.
    specialize (Hf b Hb). specialize (Hhl b Hb).
    destruct Hf as (_ & Hfh & Hfl & _).
    destruct (high b) as [| | |h]; try discriminate.
    destruct (low b) as [| | |l]; try discriminate.
    cbn [sub add neg]. eexists. split; [reflexivity|].
    rewrite !Qred_correct. unfold le, cmp in Hhl.
    destruct (l ?= h)%Q eqn:E; try discriminate.
    - apply Qeq_alt in E. rewrite E. ring_simplify. apply Qle_refl.
    - apply Qlt_alt in E. apply Qlt_le_weak.
      apply (Qplus_lt_l _ _ l). ring_simplify. assumption. }
  assert (H2 : Forall (fun x => is_nan x = true \/ nonneg x)
                 (map abs (map2 sub (map high df) (shift1 (map close df))))).
  { apply Forall_map.
    apply (Forall_map2 (fun x => is_fin x = true)
             (fun y => is_nan y = true \/ is_fin y = true)
             (fun z => is_nan (abs z) = true \/ nonneg (abs z)));
      [apply abs_gap_nonneg|assumption|assumption]. }
  assert (H3 : Forall (fun x => is_nan x = true \/ nonneg x)
                 (map abs (map2 sub (map low df) (shift1 (map close df))))).
  { apply Forall_map.
    apply (Forall_map2 (fun x => is_fin x = true)
             (fun y => is_nan y = true \/ is_fin y = true)
             (fun z => is_nan (abs z) = true \/ nonneg (abs z)));
      [apply abs_gap_nonneg|assumption|assumption]. }
  assert (Htr : Forall nonneg
                  (map2 max2
                     (map2 max2 (map2 sub (map high df) (map low df))
                        (map abs (map2 sub (map high df)
                                            (shift1 (map close df)))))
                     (map abs (map2 sub (map low df)
                                         (shift1 (map close df)))))).
  { apply (Forall_map2 nonneg (fun y => is_nan y = true \/ nonneg y) nonneg);
      [apply max2_nonneg| |assumption].
    apply (Forall_map2 nonneg (fun y => is_nan y = true \/ nonneg y) nonneg);
      [apply max2_nonneg|assumption|assumption]. }
  split;
    [|eapply Forall_impl; [apply nonneg_not_below_zero|];
      apply rolling_mean_nonneg; assumption].
  unfold rolling_mean, prep_values. rewrite length_map, length_seq, length_map.
  assert (L1 : List.length (map2 sub (map high df) (map low df))
               = List.length df)
    by (rewrite map2_length; rewrite !length_map; reflexivity).
  assert (L2 : forall f : Bar -> float,
             List.length (map abs (map2 sub (map f df)
                                             (shift1 (map close df))))
             = List.length df).
  { intros f. rewrite length_map, map2_length;
      rewrite ?shift1_length, !length_map; reflexivity. }
  rewrite map2_length.
  - rewrite map2_length; [exact L1|]. rewrite L1, L2. reflexivity.
  - rewrite map2_length; rewrite L1, L2; reflexivity.
Qed.

Lemma atr_is_never_negative_witness :
  Forall finite_bar Scenario.stop_bars
  /\ Forall (fun b => (low b <=? high b) = true) Scenario.stop_bars
  /\ List.length (Utils.atr Scenario.stop_bars 14)
     = List.length Scenario.stop_bars
  /\ Forall (fun x => (x <? fin 0) = false) (Utils.atr Scenario.stop_bars 14).
Proof.
  assert (Hf : Forall finite_bar Scenario.stop_bars)
    by (repeat constructor).
  assert (Hl : Forall (fun b => (low b <=? high b) = true)
                      Scenario.stop_bars)
    by (repeat constructor).
  split; [exact Hf|]. split; [exact Hl|].
  exact (atr_is_never_negative Scenario.stop_bars 14 Hf Hl).
Defined.

(* ================================================================== *)
(** ** VWAP when the first bar trades *)

Lemma add_positive (x y : float) :
  positive_fin x -> nonneg y -> positive_fin (x + y).
Proof.
  intros (a & -> & Ha) (b & -> & Hb). cbn [add]. eexists.
  split; [reflexivity|]. rewrite Qred_correct.
  setoid_replace 0%Q with (0 + 0)%Q by reflexivity.
  apply Qplus_lt_le_compat; assumption.
Qed.

Lemma fold_add_positive (s : Series) :
  Forall nonneg s ->
  forall acc, positive_fin acc -> positive_fin (fold_left add s acc).
Proof.
  induction 1 as [|x s Hx Hs IH]; intros acc Hacc; [assumption|].
  cbn [fold_left]. apply IH. apply add_positive; assumption.
Qed.

Lemma fold_add_fin (s : Series) :
  Forall (fun x => is_fin x = true) s ->
  forall a, is_fin (fold_left add s (fin a)) = true.
Proof.
  induction 1 as [|x s Hx Hs IH]; intros a; [reflexivity|].
  cbn [fold_left]. destruct x; try discriminate. cbn [add]. apply IH.
Qed.

Lemma Forall_firstn {A} (P : A -> Prop) (n : nat) (l : list A) :
  Forall P l -> Forall P (firstn n l).
Proof.
  intros H. apply Forall_forall. intros x Hx.
  rewrite Forall_forall in H. apply H.
  rewrite <- (firstn_skipn n l). apply in_or_app. left. exact Hx.
Qed.

(* ================================================================== *)
(** ** The day's P&L *)

Lemma entries_daily (params : Params.t) (st : State) (can_open : bool)
  (row : Row) :
  daily_pnl (entries params st can_open row) = daily_pnl st
  /\ daily_start (entries params st can_open row) = daily_start st.
Proof.
  unfold entries.
  destruct (position st), can_open; try (split; reflexivity).
  destruct (signal row =? 1)%Z; [split; reflexivity|].
  destruct (signal row =? -1)%Z; split; reflexivity.
Qed.

Lemma closed_on_none (d : Z) (l : list Trade) :
  Forall (fun t : Trade => (date (exit_time t) < d)%Z) l ->
  closed_on d l = [].
Proof.
  induction 1 as [|t l Ht Hl IH]; [reflexivity|].
  unfold closed_on in *. cbn [filter].
  destruct (Z.eqb_spec (date (exit_time t)) d); [lia|assumption].
Qed.

Lemma closed_on_snoc (d : Z) (l : list Trade) (t : Trade) :
  date (exit_time t) = d -> closed_on d (l ++ [t]) = closed_on d l ++ [t].
Proof.
  intros H. unfold closed_on. rewrite filter_app. cbn [filter].
  rewrite H, Z.eqb_refl. reflexivity.
Qed.

Lemma date_monotone (s t : Z) : (s <= t)%Z -> (date s <= date t)%Z.
Proof. intros H. unfold date, day. apply Z.div_le_mono; lia. Qed.

(** After the daily reset on a bar the day marker is the bar's date and
    the day's P&L is the sum over the trades closed on that date. *)
Lemma reset_daily_day (st : State) (prev row : Row) :
  (name prev <= name row)%Z ->
  daily_start st = date (name prev) ->
  Forall (fun t : Trade => (date (exit_time t) <= daily_start st)%Z)
         (trades st) ->
  daily_pnl st
  = fold_left add (map pnl (closed_on (daily_start st) (trades st))) (fin 0) ->
  daily_start (reset_daily st row) = date (name row)
  /\ Forall (fun t : Trade => (date (exit_time t) <= date (name row))%Z)
            (trades st)
  /\ daily_pnl (reset_daily st row)
     = fold_left add (map pnl (closed_on (date (name row)) (trades st)))
                 (fin 0).
Proof.
  intros Hle Hds Hf Hp. pose proof (date_monotone _ _ Hle) as Hm.
  unfold reset_daily.
  destruct (Z.eqb_spec (date (name row)) (daily_start st)) as [E|E];
    cbn [negb daily_start daily_pnl].
  - rewrite E. repeat split; assumption.
  - split; [reflexivity|]. split.
    + eapply Forall_impl; [|exact Hf]. cbn. intros. lia.
    + rewrite closed_on_none; [reflexivity|].
      eapply Forall_impl; [|exact Hf]. cbn. intros. lia.
Qed.

Lemma step_day (params : Params.t) (st : State) (prev row : Row) :
  (name prev <= name row)%Z ->
  daily_start st = date (name prev) ->
  Forall (fun t : Trade => (date (exit_time t) <= daily_start st)%Z)
         (trades st) ->
  daily_pnl st
  = fold_left add (map pnl (closed_on (daily_start st) (trades st))) (fin 0) ->
  let st' := step params st prev row in
  daily_start st' = date (name row)
  /\ Forall (fun t : Trade => (date (exit_time t) <= daily_start st')%Z)
            (trades st')
  /\ daily_pnl st'
     = fold_left add (map pnl (closed_on (daily_start st') (trades st')))
                 (fin 0).
Proof.
  intros Hle Hds Hf Hp st'.
  destruct (reset_daily_day st prev row Hle Hds Hf Hp) as (Rd & Rf & Rp).
  unfold st'. destruct (position st) as [p|] eqn:E.
  - rewrite (step_held params st prev row p E).
    destruct (first_exit p prev row) as [[why px]|].
    + unfold close_position. cbn [daily_start daily_pnl trades].
      rewrite reset_daily_trades, Rd. split; [reflexivity|]. split.
      * apply Forall_app. split; [assumption|].
        constructor; [cbn; lia|constructor].
      * rewrite closed_on_snoc by reflexivity.
        rewrite map_app. cbn [map pnl]. rewrite fold_add_snoc, Rp.
        reflexivity.
    + rewrite reset_daily_trades, Rd. repeat split; assumption.
  - rewrite (step_idle params st prev row E).
    match goal with
    | |- context [entries ?a ?s ?c ?r] =>
        destruct (entries_daily a s c r) as [Ep Ed]
    end.
    rewrite Ep, Ed, entries_trades, reset_daily_trades, Rd.
    repeat split; assumption.
Qed.

Lemma loop_day (params : Params.t) (rest : list Row) :
  forall (st : State) (prev : Row),
    Sorted Z.le (map (fun r : Row => name r) (prev :: rest)) ->
    daily_start st = date (name prev) ->
    Forall (fun t : Trade => (date (exit_time t) <= daily_start st)%Z)
           (trades st) ->
    daily_pnl st
    = fold_left add (map pnl (closed_on (daily_start st) (trades st)))
                (fin 0) ->
    let st' := loop params st prev rest in
    daily_start st' = date (name (List.last rest prev))
    /\ daily_pnl st'
       = fold_left add (map pnl (closed_on (daily_start st') (trades st')))
                   (fin 0).
Proof.
  induction rest as [|row rest IH]; intros st prev Hs Hds Hf Hp;
    [split; assumption|].
  cbn [map] in Hs. apply Sorted_inv in Hs. destruct Hs as [Hs Hd].
  apply HdRel_inv in Hd.
  destruct (step_day params st prev row Hd Hds Hf Hp) as (Sd & Sf & Sp).
  cbn [loop]. rewrite last_cons.
  apply (IH (step params st prev row) row); assumption.
Qed.

(** With timestamps in ascending order a run ends with the date of the
    last bar as its day marker and, as the day's P&L, the summed P&L of
    the trades that an exit rule closed on that date; the forced close at
    the end of the data is not counted in it. *)
Theorem daily_pnl_is_the_days_closed_trades (df : DataFrame)
  (params : Params.t) (st : State) :
  Sorted Z.le (map name df) ->
  simulate (generate_signals df params) params = Ok st ->
  daily_start st = date (List.last (map name df) 0%Z)
  /\ daily_pnl st
     = fold_left add
         (map pnl (closed_on (daily_start st)
                     match position st with
                     | Some _ => removelast (trades st)
                     | None => trades st
                     end))
         (fin 0).
Proof.
  intros Hs H.
  assert (Hn : map (fun r : Row => name r) (generate_signals df params)
               = map name df).
  { rewrite <- (generate_signals_bars df params) at 2.
    rewrite map_map. reflexivity. }
  destruct (generate_signals df params) as [|first rest]; [discriminate|].
  unfold simulate in H. rewrite last_cons in H. injection H as <-.
  rewrite <- Hn in *. cbn [map]. rewrite last_cons.
  set (st0 := {| equity := Params.initial_equity params |}).
  destruct (loop_day params rest st0 first Hs eq_refl (Forall_nil _) eq_refl)
    as [Ld Lp].
  unfold end_of_data.
  destruct (position (loop params st0 first rest)) as [p|] eqn:E.
  - cbn [daily_start daily_pnl position trades].
    rewrite removelast_last. split; [|assumption].
    rewrite Ld. f_equal. symmetry.
    apply (last_map (fun r : Row => name r) rest first).
  - rewrite E. split; [|assumption].
    rewrite Ld. f_equal. symmetry.
    apply (last_map (fun r : Row => name r) rest first).
Qed.

Lemma daily_pnl_is_the_days_closed_trades_witness :
  Sorted Z.le (map name Scenario.reentry_bars)
  /\ simulate (generate_signals Scenario.reentry_bars Scenario.params1)
              Scenario.params1 = Ok Scenario.reentry_run
  /\ daily_pnl Scenario.reentry_run = fin (-10)
  /\ daily_pnl Scenario.reentry_run
     = fold_left add
         (map pnl (closed_on (daily_start Scenario.reentry_run)
                     match position Scenario.reentry_run with
                     | Some _ => removelast (trades Scenario.reentry_run)
                     | None => trades Scenario.reentry_run
                     end))
         (fin 0).
Proof.
  assert (Hs : Sorted Z.le (map name Scenario.reentry_bars))
    by (repeat constructor; discriminate).
  assert (H : simulate (generate_signals Scenario.reentry_bars
                                         Scenario.params1)
                       Scenario.params1 = Ok Scenario.reentry_run)
    by (vm_compute; reflexivity).
  split; [exact Hs|]. split; [exact H|]. split; [reflexivity|].
  exact (proj2 (daily_pnl_is_the_days_closed_trades _ _ _ Hs H)).
Defined.

(* ================================================================== *)
(** ** Higher-timeframe values attached to a bar *)

Lemma members_frame (htf org k : Z) (df : DataFrame) :
  members htf org k (map name df) (map close df)
  = map close
        (filter (fun b : Bar => (bucket_of htf org (name b) =? k)%Z) df).
Proof.
  unfold members. induction df as [|b df IH]; [reflexivity|].
  cbn [map combine filter fst]. destruct (bucket_of htf org (name b) =? k)%Z;
    cbn [map snd]; rewrite IH; reflexivity.
Qed.

Lemma zrange_step (lo : Z) (n : nat) :
  map (fun k => (lo + Z.of_nat k)%Z) (seq 0 (S n))
  = lo :: map (fun k => (lo + 1 + Z.of_nat k)%Z) (seq 0 n).
Proof.
  cbn [seq map]. rewrite Z.add_0_r. f_equal.
  rewrite <- seq_shift, map_map. apply map_ext. intros j. lia.
Qed.

Lemma bucket_bounds (htf org t k : Z) :
  (0 < htf)%Z ->
  ((org + k * htf <= t)%Z <-> (k <= bucket_of htf org t)%Z).
Proof.
  intros Hh. unfold bucket_of. split; intros H.
  - apply Z.div_le_lower_bound; lia.
  - pose proof (Z.mul_div_le (t - org) htf Hh). nia.
Qed.

(** With labels at consecutive multiples of [htf], the forward-filled
    reindexing at [t] picks the cell of the bucket that [t] falls into. *)
Lemma reindex_ffill_consecutive (htf org t : Z) :
  (0 < htf)%Z ->
  forall (n : nat) (lo : Z) (col : Series),
    List.length col = n ->
    (lo <= bucket_of htf org t < lo + Z.of_nat n)%Z ->
    reindex_ffill
      (map (fun k => (org + k * htf)%Z)
           (map (fun j => (lo + Z.of_nat j)%Z) (seq 0 n)))
      col t
    = nth (Z.to_nat (bucket_of htf org t - lo)) col nan.
Proof.
  intros Hh. induction n as [|n IH]; intros lo col Hlen Hk; [lia|].
  destruct col as [|x col]; [discriminate|].
  injection Hlen as Hlen.
  rewrite zrange_step. cbn [map reindex_ffill].
  assert (H0 : (org + lo * htf <=? t)%Z = true)
    by (apply Z.leb_le, bucket_bounds; lia).
  rewrite H0.
  destruct n as [|n].
  - cbn [seq map]. replace (bucket_of htf org t - lo)%Z with 0%Z by lia.
    reflexivity.
  - remember (map (fun k => (org + k * htf)%Z)
                  (map (fun j => (lo + 1 + Z.of_nat j)%Z) (seq 0 (S n))))
      as L eqn:HL.
    assert (Hhead : exists L', L = (org + (lo + 1) * htf)%Z :: L').
    { rewrite HL, zrange_step. cbn [map]. eexists. reflexivity. }
    destruct Hhead as (L' & HL').
    rewrite HL'. rewrite <- HL'.
    destruct (Z.leb_spec (org + (lo + 1) * htf) t) as [H1|H1].
    + apply bucket_bounds in H1; [|assumption].
      rewrite HL. rewrite (IH (lo + 1)%Z col Hlen) by lia.
      replace (Z.to_nat (bucket_of htf org t - lo))
        with (S (Z.to_nat (bucket_of htf org t - (lo + 1)))) by lia.
      reflexivity.
    + assert (Hk' : ~ (lo + 1 <= bucket_of htf org t)%Z).
      { intros C. apply (bucket_bounds htf org t (lo + 1) Hh) in C. lia. }
      replace (bucket_of htf org t - lo)%Z with 0%Z by lia.
      reflexivity.
Qed.

Lemma sorted_head_min (t0 : Z) (l : list Z) (t : Z) :
  Sorted Z.le (t0 :: l) -> In t (t0 :: l) -> (t0 <= t)%Z.
Proof.
  intros Hs [<-|Hin]; [lia|].
  apply Sorted_extends in Hs; [|intros a b c; apply Z.le_trans].
  rewrite Forall_forall in Hs. apply Hs. assumption.
Qed.

Lemma sorted_last_max (l : list Z) :
  forall (t0 t : Z),
    Sorted Z.le (t0 :: l) -> In t (t0 :: l) -> (t <= List.last l t0)%Z.
Proof.
  induction l as [|a l IH]; intros t0 t Hs Hin.
  - destruct Hin as [<-|[]]. cbn. lia.
  - rewrite last_cons. apply Sorted_inv in Hs. destruct Hs as [Hs Hd].
    apply HdRel_inv in Hd.
    destruct Hin as [<-|Hin].
    + specialize (IH a a Hs (or_introl eq_refl)). lia.
    + apply IH; assumption.
Qed.

Lemma nth_map_seq (h : nat -> float) (n j : nat) :
  (j < n)%nat -> nth j (map h (seq 0 n)) nan = h j.
Proof.
  intros H. rewrite (nth_indep _ nan (h 0%nat))
    by (rewrite length_map, length_seq; assumption).
  rewrite map_nth, seq_nth by assumption. reflexivity.
Qed.

Lemma resample_cons (htf t0 : Z) (idx : list Z) (s : Series) :
  resample_sorted htf (t0 :: idx) s
  = map (fun k => ((origin (t0 :: idx) + k * htf)%Z,
                   members htf (origin (t0 :: idx)) k (t0 :: idx) s))
        (map (fun j => (bucket_of htf (origin (t0 :: idx)) t0
                        + Z.of_nat j)%Z)
             (seq 0 (Z.to_nat
                       (bucket_of htf (origin (t0 :: idx))
                                  (List.last (t0 :: idx) t0)
                        + 1 - bucket_of htf (origin (t0 :: idx)) t0)))).
Proof. reflexivity. Qed.

(** On a sorted index the forward-filled reindexing of a column computed
    per bucket hands each timestamp the cell of its own bucket. *)
Lemma attach_own_bucket (htf : Z) (index : list Z) (s : Series) (t : Z)
  (g : Z * Series -> float) :
  (0 < htf)%Z ->
  Sorted Z.le index ->
  In t index ->
  reindex_ffill (map fst (resample_sorted htf index s))
                (map g (resample_sorted htf index s)) t
  = g ((origin index + bucket_of htf (origin index) t * htf)%Z,
       members htf (origin index) (bucket_of htf (origin index) t) index s).
Proof.
  intros Hh Hs Hin. destruct index as [|t0 idx]; [destruct Hin|].
  rewrite resample_cons.
  set (index := t0 :: idx) in *. set (org := origin index).
  set (lo := bucket_of htf org t0).
  set (hi := bucket_of htf org (List.last index t0)).
  set (k := bucket_of htf org t).
  assert (Hlo : (lo <= k)%Z).
  { unfold lo, k, bucket_of. apply Z.div_le_mono; [assumption|].
    pose proof (sorted_head_min t0 idx t Hs Hin). lia. }
  assert (Hhi : (k <= hi)%Z).
  { unfold hi, k, bucket_of. apply Z.div_le_mono; [assumption|].
    pose proof (sorted_last_max idx t0 t Hs Hin) as Hl.
    unfold index. rewrite last_cons. lia. }
  rewrite !map_map. cbn [fst].
  rewrite <- (map_map (fun j => (lo + Z.of_nat j)%Z)
                      (fun k => (org + k * htf)%Z)).
  rewrite reindex_ffill_consecutive
    by (try assumption; try (rewrite length_map, length_seq; reflexivity);
        fold k; lia).
  fold k. rewrite nth_map_seq by lia.
  replace (lo + Z.of_nat (Z.to_nat (k - lo)))%Z with k by lia.
  reflexivity.
Qed.

Lemma sort_by_time_sorted (l : list (Z * float)) :
  Sorted Z.le (map fst l) -> sort_by_time l = l.
Proof.
  induction l as [|x l IH]; intros Hs; [reflexivity|].
  cbn [map] in Hs. apply Sorted_inv in Hs. destruct Hs as [Hs Hd].
  cbn [sort_by_time fold_right]. fold (sort_by_time l). rewrite (IH Hs).
  destruct l as [|y l]; [reflexivity|].
  cbn [map] in Hd. apply HdRel_inv in Hd. cbn [insert_by_time].
  destruct (Z.leb_spec (fst x) (fst y)); [reflexivity|lia].
Qed.

Lemma combine_fst_snd (index : list Z) (s : Series) :
  List.length index = List.length s ->
  map fst (combine index s) = index /\ map snd (combine index s) = s.
Proof.
  revert s. induction index as [|t index IH]; intros s H;
    destruct s as [|x s]; try discriminate; [split; reflexivity|].
  injection H as H. destruct (IH s H) as [E1 E2].
  cbn [combine map fst snd]. rewrite E1, E2. split; reflexivity.
Qed.

(** On an index in ascending order the sort changes nothing. *)
Lemma resample_of_sorted (htf : Z) (index : list Z) (s : Series) :
  Sorted Z.le index ->
  List.length index = List.length s ->
  resample htf index s = resample_sorted htf index s.
Proof.
  intros Hs Hl. unfold resample.
  destruct (combine_fst_snd index s Hl) as [E1 E2].
  rewrite sort_by_time_sorted by (rewrite E1; assumption).
  rewrite E1, E2. reflexivity.
Qed.

Lemma prepared_index (df : DataFrame) (params : Params.t) :
  map (fun x : Indicators => name x) (prepare_indicators df params)
  = map name df
  /\ map (fun x : Indicators => close x) (prepare_indicators df params)
     = map close df.
Proof.
  split; rewrite <- (prepare_indicators_bars df params) at 2;
    rewrite map_map; reflexivity.
Qed.

(** The higher-timeframe ema200 of a row, as the code attaches it. *)
Lemma generate_signals_ema200_htf (df : DataFrame) (params : Params.t)
  (r : Row) :
  In r (generate_signals df params) ->
  ema200_htf r
  = reindex_ffill
      (map fst (resample (Params.htf params) (map name df) (map close df)))
      (ema200_htf_column params (map name df) (map close df))
      (name r).
Proof.
  intros H. unfold generate_signals in H. cbv zeta in H.
  destruct (prepared_index df params) as [E1 E2].
  rewrite E1, E2 in H.
  apply in_map_iff in H. destruct H as ([x i] & <- & _). reflexivity.
Qed.

(** On a frame in ascending time order, with a positive bucket length,
    the higher-timeframe ema200 attached to a bar is the last value of
    the EMA taken over the closes of all the bars of the frame that fall
    into the bar's own bucket, the bar itself and the later bars of the
    bucket included, and of no other bar. *)
Theorem htf_ema_is_taken_over_own_bucket (df : DataFrame)
  (params : Params.t) (r : Row) :
  (0 < Params.htf params)%Z ->
  Sorted Z.le (map name df) ->
  In r (generate_signals df params) ->
  ema200_htf r
  = last (Utils.ema (bucket_closes params df (name r))
                    (Params.ema200 params))
  /\ In (close r) (bucket_closes params df (name r)).
Proof.
  intros Hh Hs Hin.
  assert (Hbar : In (bar r) df).
  { rewrite <- (generate_signals_bars df params).
    apply (in_map (fun r : Row => bar r)). assumption. }
  assert (Hclose : In (close r) (bucket_closes params df (name r))).
  { unfold bucket_closes. apply (in_map close). apply filter_In.
    split; [assumption|]. apply Z.eqb_refl. }
  split; [|assumption].
  rewrite (generate_signals_ema200_htf df params r Hin).
  unfold ema200_htf_column.
  rewrite (resample_of_sorted (Params.htf params) (map name df)
             (map close df) Hs)
    by (rewrite !length_map; reflexivity).
  rewrite (attach_own_bucket (Params.htf params) (map name df)
             (map close df) (name r)
             (fun b => if (0 <? List.length (snd b))%nat
                       then last (Utils.ema (snd b) (Params.ema200 params))
                       else nan) Hh Hs (in_map name df (bar r) Hbar)).
  cbn [snd]. rewrite members_frame.
  change (map close
            (filter (fun b : Bar =>
                       (bucket_of (Params.htf params) (origin (map name df))
                                  (name b)
                        =? bucket_of (Params.htf params)
                                     (origin (map name df)) (name r))%Z) df))
    with (bucket_closes params df (name r)).
  destruct (bucket_closes params df (name r)) as [|c l];
    [destruct Hclose|reflexivity].
Qed.

(** Bar 2 of the three-bar run: its higher-timeframe ema200 is taken
    over the closes of bars 2 and 3, the bars of its hour. *)
Lemma htf_ema_is_taken_over_own_bucket_witness :
  let r := Scenario.row_at Scenario.stop_bars 1 in
  (0 < Params.htf Scenario.params1)%Z
  /\ Sorted Z.le (map name Scenario.stop_bars)
  /\ In r (generate_signals Scenario.stop_bars Scenario.params1)
  /\ bucket_closes Scenario.params1 Scenario.stop_bars (name r)
     = [num 100.8; num 100.5]
  /\ ema200_htf r
     = last (Utils.ema (bucket_closes Scenario.params1 Scenario.stop_bars
                                      (name r))
                       (Params.ema200 Scenario.params1))
  /\ In (close r)
        (bucket_closes Scenario.params1 Scenario.stop_bars (name r)).
Proof.
  intros r.
  assert (Hh : (0 < Params.htf Scenario.params1)%Z) by reflexivity.
  assert (Hs : Sorted Z.le (map name Scenario.stop_bars))
    by (repeat constructor; discriminate).
  assert (Hin : In r (generate_signals Scenario.stop_bars Scenario.params1))
    by (right; left; reflexivity).
  split; [exact Hh|]. split; [exact Hs|]. split; [exact Hin|].
  split; [vm_compute; reflexivity|].
  exact (htf_ema_is_taken_over_own_bucket Scenario.stop_bars
           Scenario.params1 r Hh Hs Hin).
Defined.

(* ================================================================== *)
(** ** What a stop and a target are worth *)

Lemma first_exit_price (p : Position) (prev row : Row) (why : string)
  (px : float) :
  first_exit p prev row = Some (why, px) ->
  (why = "stop"%string -> px = stop p)
  /\ (why = "tp"%string -> px = tp p).
Proof.
  unfold first_exit.
  destruct (stop_hit p row); [intros [= <- <-]; split; [reflexivity|discriminate]|].
  destruct (target_hit p row); [intros [= <- <-]; split; [discriminate|reflexivity]|].
  destruct (technical_exit p row); [intros [= <- <-]; split; discriminate|].
  destruct (session_close prev row); [intros [= <- <-]; split; discriminate|].
  discriminate.
Qed.

Lemma entry_pnl (params : Params.t) (r0 : Row) (p : Position) (o a m : Q) :
  entered_on params r0 p ->
  open r0 = fin o -> atr r0 = fin a -> Params.atr_mult params = fin m ->
  (exists q, realized_pnl p (stop p) = fin q /\ (q == - (10 * (m * a)))%Q)
  /\ (exists q, realized_pnl p (tp p) = fin q /\ (q == 30 * (m * a))%Q).
Proof.
  intros [[_ ->]|[_ ->]] Ho Ha Hm;
    unfold realized_pnl, long_entry, short_entry, CONTRACT_TICK_VALUE, of_Z;
    cbn [side entry_price stop tp qty]; rewrite Ho, Ha, Hm;
    cbn [add sub mul neg]; split; eexists; (split; [reflexivity|]);
    rewrite !Qred_correct; unfold inject_Z; ring.
Qed.

(** A position entered on a bar with a finite open, where ATR and
    [atr_mult] are finite and not negative, never gains when a later bar
    closes it on its stop (P&L <= 0) and never loses when a later bar
    closes it on its target (P&L >= 0), long or short. *)
Theorem stop_never_gains_target_never_loses (params : Params.t)
  (st : State) (prev row r0 : Row) (p : Position) (o : Q)
  (why : string) (px : float) :
  position st = Some p ->
  entered_on params r0 p ->
  open r0 = fin o ->
  nonneg (atr r0) ->
  nonneg (Params.atr_mult params) ->
  first_exit p prev row = Some (why, px) ->
  exists t,
    trades (step params st prev row) = trades st ++ [t]
    /\ reason t = why
    /\ exit_price t = px
    /\ (why = "stop"%string -> px = stop p /\ (pnl t <=? fin 0) = true)
    /\ (why = "tp"%string -> px = tp p /\ (pnl t >=? fin 0) = true).
Proof.
  intros Hp He Ho (a & Ha & Ha0) (m & Hm & Hm0) Hx.
  assert (Hma : (0 <= m * a)%Q) by (apply Qmult_le_0_compat; assumption).
  rewrite (step_held params st prev row p Hp), Hx.
  unfold close_position. cbn [trades]. rewrite reset_daily_trades.
  destruct (first_exit_price p prev row why px Hx) as [Hs Ht].
  destruct (entry_pnl params r0 p o a m He Ho Ha Hm)
    as [(q1 & E1 & Q1) (q2 & E2 & Q2)].
  eexists. split; [reflexivity|]. cbn [reason pnl exit_price].
  split; [reflexivity|]. split; [reflexivity|]. split.
  - intros S. rewrite (Hs S). split; [reflexivity|].
    rewrite E1. apply le_fin. rewrite Q1. lra.
  - intros T. rewrite (Ht T). split; [reflexivity|].
    rewrite E2. apply ge_fin. rewrite Q2. lra.
Qed.

Lemma stop_never_gains_target_never_loses_witness :
  let prev := Scenario.row_at Scenario.target_bars 1 in
  let row := Scenario.row_at Scenario.target_bars 2 in
  position Scenario.after_entry = Some Scenario.held
  /\ entered_on Scenario.params1 prev Scenario.held
  /\ open prev = fin 100
  /\ nonneg (atr prev)
  /\ nonneg (Params.atr_mult Scenario.params1)
  /\ first_exit Scenario.held prev row = Some ("tp"%string, fin 103)
  /\ exists t,
       trades (step Scenario.params1 Scenario.after_entry prev row)
       = trades Scenario.after_entry ++ [t]
       /\ reason t = "tp"%string
       /\ exit_price t = fin 103
       /\ ("tp"%string = "stop"%string ->
           fin 103 = stop Scenario.held /\ (pnl t <=? fin 0) = true)
       /\ ("tp"%string = "tp"%string ->
           fin 103 = tp Scenario.held /\ (pnl t >=? fin 0) = true).
Proof.
  intros prev row.
  assert (H1 : position Scenario.after_entry = Some Scenario.held)
    by reflexivity.
  assert (H2 : entered_on Scenario.params1 prev Scenario.held).
  { left. split; vm_compute; reflexivity. }
  assert (H3 : open prev = fin 100) by (vm_compute; reflexivity).
  assert (H4 : nonneg (atr prev)).
  { exists 1%Q. split; [vm_compute; reflexivity|discriminate]. }
  assert (H5 : nonneg (Params.atr_mult Scenario.params1)).
  { exists 1%Q. split; [reflexivity|discriminate]. }
  assert (H6 : first_exit Scenario.held prev row
               = Some ("tp"%string, fin 103)) by (vm_compute; reflexivity).
  split; [exact H1|]. split; [exact H2|]. split; [exact H3|].
  split; [exact H4|]. split; [exact H5|]. split; [exact H6|].
  exact (stop_never_gains_target_never_loses Scenario.params1
           Scenario.after_entry prev row prev Scenario.held 100
           "tp" (fin 103) H1 H2 H3 H4 H5 H6).
Defined.

(* ================================================================== *)
(** ** The first row *)

Lemma enumerate_cons {A} (a : A) (l : list A) :
  exists rest, enumerate (a :: l) = (a, 0%nat) :: rest.
Proof. unfold enumerate. cbn. eexists. reflexivity. Qed.

(** The first row of every signal frame has no previous MACD histogram:
    its momentum filters are both false and its signal is 0. *)
Theorem first_row_never_signals (b : Bar) (df : DataFrame)
  (params : Params.t) :
  exists r rest,
    generate_signals (b :: df) params = r :: rest
    /\ bar r = b
    /\ macd_rising r = false /\ macd_falling r = false
    /\ signal r = 0%Z.
Proof.
  unfold generate_signals.
  destruct (prepare_indicators (b :: df) params) as [|x prep] eqn:Hp.
  - pose proof (prepare_indicators_bars (b :: df) params) as H.
    rewrite Hp in H. discriminate.
  - assert (Hb : bar x = b).
    { pose proof (prepare_indicators_bars (b :: df) params) as H.
      rewrite Hp in H. injection H as H _. exact H. }
    destruct (enumerate_cons x prep) as (rest & ->).
    cbn [map]. eexists. eexists. split; [reflexivity|].
    cbn [signals ind bar macd_rising macd_falling signal].
    split; [exact Hb|].
    assert (Hc : cell (shift1 (macd_hist x
                               :: map (fun x : Indicators => macd_hist x)
                                      prep)) 0 = nan) by reflexivity.
    rewrite Hc.
    assert (Hr : (macd_hist x >? nan) = false)
      by (apply gt_nan_r; reflexivity).
    assert (Hf : (macd_hist x <? nan) = false)
      by (apply lt_nan_r; reflexivity).
    rewrite Hr, Hf. split; [reflexivity|]. split; [reflexivity|].
    rewrite !andb_false_r. cbn. rewrite ?andb_false_r. reflexivity.
Qed.
